(** * Data-access layer of vocabularyDB (src/unnamed/part_000)

    Shallow embedding of the Firestore-backed CRUD layer.  The remote
    document store, the two module-level caches ([wordCache],
    [posTagCache]), the clock read by [Timestamp.now()], the auto-id
    generator used by [doc(colRef)] / [addDoc], and a log of the store
    calls issued are threaded through an explicit state/error monad.
    [Promise.all] over independent documents is run sequentially. *)

From Stdlib Require Import String List ZArith Bool Lia Permutation.
Import ListNotations.
Open Scope string_scope.
Open Scope list_scope.

(** ** Data model (the TypeScript interfaces) *)

Definition Timestamp := Z.

Record RelatedWords := { same : option string; opposite : option string }.

(** The fields of a [Word] other than [id].  Optional TS fields are
    [option]s; for [reviewDate?: Timestamp | null], [None] is "absent" and
    [Some None] is [null]. *)
Record WordFields := {
  word : string;
  pinyin : string;
  favorite : bool;
  translation : string;
  partOfSpeech : list string;
  exampleSentence : string;
  exampleTranslation : string;
  relatedWords : option RelatedWords;
  usageFrequency : Z;
  mastery : Z;
  note : string;
  wordbookId : string;
  createdAt : Timestamp;
  reviewDate : option (option Timestamp);
  studyCount : option Z }.

(** [Word] = [{ id, ...fields }]. *)
Record Word := { w_id : string; w_fields : WordFields }.

(** Data of a stored word document.  [bulkImportWords] writes an [id] field
    into the document (and [updateWord] may), [createWord] does not. *)
Record WordData := { d_id : option string; d_fields : WordFields }.

(** [Omit<Word, "id" | "createdAt" | "wordbookId" | "reviewDate" | "studyCount">] *)
Record WordInput := {
  i_word : string;
  i_pinyin : string;
  i_favorite : bool;
  i_translation : string;
  i_partOfSpeech : list string;
  i_exampleSentence : string;
  i_exampleTranslation : string;
  i_relatedWords : option RelatedWords;
  i_usageFrequency : Z;
  i_mastery : Z;
  i_note : string }.

(** [Partial<Word>]: [None] means the key is not in the update object. *)
Record WordPatch := {
  p_id : option string;
  p_word : option string;
  p_pinyin : option string;
  p_favorite : option bool;
  p_translation : option string;
  p_partOfSpeech : option (list string);
  p_exampleSentence : option string;
  p_exampleTranslation : option string;
  p_relatedWords : option RelatedWords;
  p_usageFrequency : option Z;
  p_mastery : option Z;
  p_note : option string;
  p_wordbookId : option string;
  p_createdAt : option Timestamp;
  p_reviewDate : option (option Timestamp);
  p_studyCount : option Z }.

(** [Omit<Wordbook, "id">], the data of a wordbook document. *)
Record WordbookData := {
  wb_name : string;
  wb_userId : string;
  wb_createdAt : Timestamp;
  trashed : option bool;
  trashedAt : option (option Timestamp) }.

Record Wordbook := { wb_id : string; wb_data : WordbookData }.

(** The update objects passed to [updateDoc] on a wordbook. *)
Record WordbookPatch := {
  pw_name : option string;
  pw_trashed : option bool;
  pw_trashedAt : option (option Timestamp) }.

Record TagFields := { tag_name : string; color : string; tag_userId : string }.
Record PartOfSpeechTag := { t_id : string; t_fields : TagFields }.
(** A stored tag document; [updatePartOfSpeechTag] may write an [id] key. *)
Record TagData := { td_id : option string; td_fields : TagFields }.
(** [Omit<PartOfSpeechTag, "id" | "userId">] *)
Record TagInput := { ti_name : string; ti_color : string }.
(** [Partial<PartOfSpeechTag>] *)
Record TagPatch := {
  tp_id : option string;
  tp_name : option string;
  tp_color : option string;
  tp_userId : option string }.

(** ** Object spreads *)

Definition ov {A} (o : option A) (d : A) : A :=
  match o with Some v => v | None => d end.

(** [{ ...f, ...p }] *)
Definition patch_fields (p : WordPatch) (f : WordFields) : WordFields := {|
  word := ov (p_word p) (word f);
  pinyin := ov (p_pinyin p) (pinyin f);
  favorite := ov (p_favorite p) (favorite f);
  translation := ov (p_translation p) (translation f);
  partOfSpeech := ov (p_partOfSpeech p) (partOfSpeech f);
  exampleSentence := ov (p_exampleSentence p) (exampleSentence f);
  exampleTranslation := ov (p_exampleTranslation p) (exampleTranslation f);
  relatedWords := match p_relatedWords p with
                  | Some r => Some r | None => relatedWords f end;
  usageFrequency := ov (p_usageFrequency p) (usageFrequency f);
  mastery := ov (p_mastery p) (mastery f);
  note := ov (p_note p) (note f);
  wordbookId := ov (p_wordbookId p) (wordbookId f);
  createdAt := ov (p_createdAt p) (createdAt f);
  reviewDate := match p_reviewDate p with
                | Some v => Some v | None => reviewDate f end;
  studyCount := match p_studyCount p with
                | Some n => Some n | None => studyCount f end |}.

Definition patch_word (p : WordPatch) (w : Word) : Word :=
  {| w_id := ov (p_id p) (w_id w); w_fields := patch_fields p (w_fields w) |}.

Definition patch_data (p : WordPatch) (d : WordData) : WordData := {|
  d_id := match p_id p with Some i => Some i | None => d_id d end;
  d_fields := patch_fields p (d_fields d) |}.

Definition patch_wordbook (p : WordbookPatch) (d : WordbookData) : WordbookData := {|
  wb_name := ov (pw_name p) (wb_name d);
  wb_userId := wb_userId d;
  wb_createdAt := wb_createdAt d;
  trashed := match pw_trashed p with Some b => Some b | None => trashed d end;
  trashedAt := match pw_trashedAt p with Some t => Some t | None => trashedAt d end |}.

Definition patch_tag_fields (p : TagPatch) (f : TagFields) : TagFields := {|
  tag_name := ov (tp_name p) (tag_name f);
  color := ov (tp_color p) (color f);
  tag_userId := ov (tp_userId p) (tag_userId f) |}.

Definition patch_tag (p : TagPatch) (t : PartOfSpeechTag) : PartOfSpeechTag :=
  {| t_id := ov (tp_id p) (t_id t); t_fields := patch_tag_fields p (t_fields t) |}.

Definition patch_tagdata (p : TagPatch) (d : TagData) : TagData := {|
  td_id := match tp_id p with Some i => Some i | None => td_id d end;
  td_fields := patch_tag_fields p (td_fields d) |}.

(** [{ partOfSpeech: l }] *)
Definition pos_patch (l : list string) : WordPatch := {|
  p_id := None; p_word := None; p_pinyin := None; p_favorite := None;
  p_translation := None; p_partOfSpeech := Some l; p_exampleSentence := None;
  p_exampleTranslation := None; p_relatedWords := None;
  p_usageFrequency := None; p_mastery := None; p_note := None;
  p_wordbookId := None; p_createdAt := None; p_reviewDate := None;
  p_studyCount := None |}.

(** [{ mastery: 0, studyCount: 0, reviewDate: null }] *)
Definition reset_patch : WordPatch := {|
  p_id := None; p_word := None; p_pinyin := None; p_favorite := None;
  p_translation := None; p_partOfSpeech := None; p_exampleSentence := None;
  p_exampleTranslation := None; p_relatedWords := None;
  p_usageFrequency := None; p_mastery := Some 0%Z; p_note := None;
  p_wordbookId := None; p_createdAt := None; p_reviewDate := Some None;
  p_studyCount := Some 0%Z |}.

(** JavaScript truthiness of an optional boolean field. *)
Definition truthy (b : option bool) : bool :=
  match b with Some true => true | _ => false end.

(** ** The document store

    A collection is the list of its documents, in the store's order. *)

Definition Coll (D : Type) := list (string * D).

Fixpoint lookup {D} (k : string) (c : Coll D) : option D :=
  match c with
  | [] => None
  | (k', d) :: c' => if String.eqb k k' then Some d else lookup k c'
  end.

Definition coll_update {D} (k : string) (f : D -> D) (c : Coll D) : Coll D :=
  map (fun e => if String.eqb (fst e) k then (fst e, f (snd e)) else e) c.

Definition coll_delete {D} (k : string) (c : Coll D) : Coll D :=
  filter (fun e => negb (String.eqb (fst e) k)) c.

(** [set]: overwrite the document, or create it. *)
Definition coll_set {D} (k : string) (d : D) (c : Coll D) : Coll D :=
  match lookup k c with
  | Some _ => coll_update k (fun _ => d) c
  | None => c ++ [(k, d)]
  end.

Record Store := {
  s_wordbooks : string -> Coll WordbookData;          (* users/{u}/wordbooks *)
  s_words : string -> string -> Coll WordData;        (* users/{u}/wordbooks/{wb}/words *)
  s_posTags : string -> Coll TagData }.               (* users/{u}/posTags *)

Definition upd_wordbooks (u : string) (f : Coll WordbookData -> Coll WordbookData)
  (s : Store) : Store := {|
  s_wordbooks := fun u' => if String.eqb u' u then f (s_wordbooks s u') else s_wordbooks s u';
  s_words := s_words s;
  s_posTags := s_posTags s |}.

Definition upd_words (u wb : string) (f : Coll WordData -> Coll WordData)
  (s : Store) : Store := {|
  s_wordbooks := s_wordbooks s;
  s_words := fun u' wb' =>
    if String.eqb u' u && String.eqb wb' wb then f (s_words s u' wb') else s_words s u' wb';
  s_posTags := s_posTags s |}.

Definition upd_posTags (u : string) (f : Coll TagData -> Coll TagData)
  (s : Store) : Store := {|
  s_wordbooks := s_wordbooks s;
  s_words := s_words s;
  s_posTags := fun u' => if String.eqb u' u then f (s_posTags s u') else s_posTags s u' |}.

(** ** Store calls, as recorded in the log *)

Definition Path := list string.

Definition wordbooksPath (u : string) : Path := ["users"; u; "wordbooks"].
Definition wordbookPath (u wb : string) : Path := wordbooksPath u ++ [wb].
Definition wordsPath (u wb : string) : Path := wordbookPath u wb ++ ["words"].
Definition wordPath (u wb id : string) : Path := wordsPath u wb ++ [id].
Definition posTagsPath (u : string) : Path := ["users"; u; "posTags"].
Definition posTagPath (u id : string) : Path := posTagsPath u ++ [id].

(** The writes of a [writeBatch] (all on one words collection here). *)
Inductive WordWrite :=
| WSet (id : string) (d : WordData)
| WUpdate (id : string) (p : WordPatch)
| WDelete (id : string).

Inductive Event :=
| EvGetDoc (p : Path)
| EvGetDocs (p : Path)
| EvQuery (p : Path) (field op value : string)
| EvAddDoc (p : Path)
| EvUpdateDoc (p : Path)
| EvDeleteDoc (p : Path)
| EvCommit (p : Path) (ws : list WordWrite).

(** ** Process state and the effect monad *)

Record St := {
  st_store : Store;
  wordCache : string -> option (list Word);
  posTagCache : string -> option (list PartOfSpeechTag);
  st_clock : nat -> Timestamp;   (* successive values of [Timestamp.now()] *)
  st_tick : nat;                 (* clock reads so far *)
  st_autoId : nat -> string;     (* successive auto-generated document ids *)
  st_idn : nat;                  (* ids generated so far *)
  st_log : list Event }.

Definition set_store (x : Store) (s : St) : St := {|
  st_store := x; wordCache := wordCache s; posTagCache := posTagCache s;
  st_clock := st_clock s; st_tick := st_tick s; st_autoId := st_autoId s;
  st_idn := st_idn s; st_log := st_log s |}.

Definition set_wordCache (c : string -> option (list Word)) (s : St) : St := {|
  st_store := st_store s; wordCache := c; posTagCache := posTagCache s;
  st_clock := st_clock s; st_tick := st_tick s; st_autoId := st_autoId s;
  st_idn := st_idn s; st_log := st_log s |}.

Definition set_posTagCache (c : string -> option (list PartOfSpeechTag)) (s : St) : St := {|
  st_store := st_store s; wordCache := wordCache s; posTagCache := c;
  st_clock := st_clock s; st_tick := st_tick s; st_autoId := st_autoId s;
  st_idn := st_idn s; st_log := st_log s |}.

Definition set_tick (n : nat) (s : St) : St := {|
  st_store := st_store s; wordCache := wordCache s; posTagCache := posTagCache s;
  st_clock := st_clock s; st_tick := n; st_autoId := st_autoId s;
  st_idn := st_idn s; st_log := st_log s |}.

Definition set_idn (n : nat) (s : St) : St := {|
  st_store := st_store s; wordCache := wordCache s; posTagCache := posTagCache s;
  st_clock := st_clock s; st_tick := st_tick s; st_autoId := st_autoId s;
  st_idn := n; st_log := st_log s |}.

Definition set_log (l : list Event) (s : St) : St := {|
  st_store := st_store s; wordCache := wordCache s; posTagCache := posTagCache s;
  st_clock := st_clock s; st_tick := st_tick s; st_autoId := st_autoId s;
  st_idn := st_idn s; st_log := l |}.

(** [obj[k] = v] on a module-level cache object. *)
Definition cache_put {V} (k : string) (v : V) (c : string -> option V) : string -> option V :=
  fun k' => if String.eqb k' k then Some v else c k'.

(** Firestore errors the layer can meet deterministically: [updateDoc] of a
    missing document (also inside a batch) and the [exists(false)]
    precondition of [addDoc]. *)
Inductive FsError := NotFound | AlreadyExists.

Inductive Res (A : Type) := Ok (a : A) | Err (e : FsError).
Arguments Ok {A} a.
Arguments Err {A} e.

(** A rejected promise keeps the effects performed before the failure. *)
Definition M (A : Type) := St -> Res A * St.

Definition ret {A} (a : A) : M A := fun s => (Ok a, s).
Definition bind {A B} (m : M A) (k : A -> M B) : M B :=
  fun s => match m s with
           | (Ok a, s') => k a s'
           | (Err e, s') => (Err e, s')
           end.
Definition throw {A} (e : FsError) : M A := fun s => (Err e, s).

Notation "x <- m ;; k" := (bind m (fun x => k))
  (at level 61, m at next level, right associativity).
Notation "m ;; k" := (bind m (fun _ : unit => k)) (at level 61, right associativity).

Definition get : M St := fun s => (Ok s, s).
Definition modify (f : St -> St) : M unit := fun s => (Ok tt, f s).
Definition emit (e : Event) : M unit := modify (fun s => set_log (st_log s ++ [e]) s).
Definition modify_store (f : Store -> Store) : M unit :=
  modify (fun s => set_store (f (st_store s)) s).

(** [Timestamp.now()] *)
Definition now : M Timestamp :=
  fun s => (Ok (st_clock s (st_tick s)), set_tick (S (st_tick s)) s).

(** [doc(colRef).id]: a client-generated document id. *)
Definition autoId : M string :=
  fun s => (Ok (st_autoId s (st_idn s)), set_idn (S (st_idn s)) s).

(** [await Promise.all(xs.map(f))], run in order. *)
Fixpoint iter {A} (f : A -> M unit) (xs : list A) : M unit :=
  match xs with
  | [] => ret tt
  | x :: xs' => f x ;; iter f xs'
  end.

(** ** Store primitives *)

Definition getWordbookDocs (u : string) : M (Coll WordbookData) :=
  emit (EvGetDocs (wordbooksPath u)) ;;
  s <- get ;; ret (s_wordbooks (st_store s) u).

Definition getWordbookDoc (u wb : string) : M (option WordbookData) :=
  emit (EvGetDoc (wordbookPath u wb)) ;;
  s <- get ;; ret (lookup wb (s_wordbooks (st_store s) u)).

(** [addDoc]: auto id, then a create with precondition [exists(false)]. *)
Definition addWordbookDoc (u : string) (d : WordbookData) : M string :=
  id <- autoId ;;
  emit (EvAddDoc (wordbooksPath u)) ;;
  s <- get ;;
  match lookup id (s_wordbooks (st_store s) u) with
  | Some _ => throw AlreadyExists
  | None => modify_store (upd_wordbooks u (fun c => c ++ [(id, d)])) ;; ret id
  end.

Definition updateWordbookDoc (u wb : string) (p : WordbookPatch) : M unit :=
  emit (EvUpdateDoc (wordbookPath u wb)) ;;
  s <- get ;;
  match lookup wb (s_wordbooks (st_store s) u) with
  | None => throw NotFound
  | Some _ => modify_store (upd_wordbooks u (coll_update wb (patch_wordbook p)))
  end.

Definition deleteWordbookDoc (u wb : string) : M unit :=
  emit (EvDeleteDoc (wordbookPath u wb)) ;;
  modify_store (upd_wordbooks u (coll_delete wb)).

Definition getWordDocs (u wb : string) : M (Coll WordData) :=
  emit (EvGetDocs (wordsPath u wb)) ;;
  s <- get ;; ret (s_words (st_store s) u wb).

(** [getDocs(query(wordsRef, where("partOfSpeech", "array-contains", tag)))] *)
Definition queryWordsByPos (u wb tag : string) : M (Coll WordData) :=
  emit (EvQuery (wordsPath u wb) "partOfSpeech" "array-contains" tag) ;;
  s <- get ;;
  ret (filter (fun e => existsb (String.eqb tag) (partOfSpeech (d_fields (snd e))))
              (s_words (st_store s) u wb)).

Definition addWordDoc (u wb : string) (d : WordData) : M string :=
  id <- autoId ;;
  emit (EvAddDoc (wordsPath u wb)) ;;
  s <- get ;;
  match lookup id (s_words (st_store s) u wb) with
  | Some _ => throw AlreadyExists
  | None => modify_store (upd_words u wb (fun c => c ++ [(id, d)])) ;; ret id
  end.

Definition updateWordDoc (u wb id : string) (p : WordPatch) : M unit :=
  emit (EvUpdateDoc (wordPath u wb id)) ;;
  s <- get ;;
  match lookup id (s_words (st_store s) u wb) with
  | None => throw NotFound
  | Some _ => modify_store (upd_words u wb (coll_update id (patch_data p)))
  end.

Definition deleteWordDoc (u wb id : string) : M unit :=
  emit (EvDeleteDoc (wordPath u wb id)) ;;
  modify_store (upd_words u wb (coll_delete id)).

(** One write of a batch; an update of a missing document fails the batch. *)
Definition apply_write (w : WordWrite) (c : Coll WordData) : option (Coll WordData) :=
  match w with
  | WSet id d => Some (coll_set id d c)
  | WUpdate id p =>
      match lookup id c with
      | None => None
      | Some _ => Some (coll_update id (patch_data p) c)
      end
  | WDelete id => Some (coll_delete id c)
  end.

Fixpoint apply_writes (ws : list WordWrite) (c : Coll WordData) : option (Coll WordData) :=
  match ws with
  | [] => Some c
  | w :: ws' => match apply_write w c with
                | None => None
                | Some c' => apply_writes ws' c'
                end
  end.

(** [batch.commit()]: all writes or none. *)
Definition commitWordBatch (u wb : string) (ws : list WordWrite) : M unit :=
  emit (EvCommit (wordsPath u wb) ws) ;;
  s <- get ;;
  match apply_writes ws (s_words (st_store s) u wb) with
  | None => throw NotFound
  | Some c => modify_store (upd_words u wb (fun _ => c))
  end.

Definition getTagDocs (u : string) : M (Coll TagData) :=
  emit (EvGetDocs (posTagsPath u)) ;;
  s <- get ;; ret (s_posTags (st_store s) u).

Definition addTagDoc (u : string) (d : TagData) : M string :=
  id <- autoId ;;
  emit (EvAddDoc (posTagsPath u)) ;;
  s <- get ;;
  match lookup id (s_posTags (st_store s) u) with
  | Some _ => throw AlreadyExists
  | None => modify_store (upd_posTags u (fun c => c ++ [(id, d)])) ;; ret id
  end.

Definition updateTagDoc (u id : string) (p : TagPatch) : M unit :=
  emit (EvUpdateDoc (posTagPath u id)) ;;
  s <- get ;;
  match lookup id (s_posTags (st_store s) u) with
  | None => throw NotFound
  | Some _ => modify_store (upd_posTags u (coll_update id (patch_tagdata p)))
  end.

Definition deleteTagDoc (u id : string) : M unit :=
  emit (EvDeleteDoc (posTagPath u id)) ;;
  modify_store (upd_posTags u (coll_delete id)).

(** ** Documents as returned to callers: [{ id: docSnap.id, ...docSnap.data() }] *)

Definition toWordbook (e : string * WordbookData) : Wordbook :=
  {| wb_id := fst e; wb_data := snd e |}.

Definition toWord (e : string * WordData) : Word :=
  {| w_id := ov (d_id (snd e)) (fst e); w_fields := d_fields (snd e) |}.

Definition toTag (e : string * TagData) : PartOfSpeechTag :=
  {| t_id := ov (td_id (snd e)) (fst e); t_fields := td_fields (snd e) |}.

Definition makeCacheKey (userId wordbookId : string) : string :=
  String.append userId (String.append "_" wordbookId).

(** [{ ...d, wordbookId, createdAt, reviewDate: null, studyCount: 0 }] *)
Definition mkWordFields (d : WordInput) (wbId : string) (t : Timestamp) : WordFields := {|
  word := i_word d;
  pinyin := i_pinyin d;
  favorite := i_favorite d;
  translation := i_translation d;
  partOfSpeech := i_partOfSpeech d;
  exampleSentence := i_exampleSentence d;
  exampleTranslation := i_exampleTranslation d;
  relatedWords := i_relatedWords d;
  usageFrequency := i_usageFrequency d;
  mastery := i_mastery d;
  note := i_note d;
  wordbookId := wbId;
  createdAt := t;
  reviewDate := Some None;
  studyCount := Some 0%Z |}.

(** ** Wordbook operations *)

Definition getWordbooksByUserId (userId : string) : M (list Wordbook) :=
  docs <- getWordbookDocs userId ;;
  ret (map toWordbook (filter (fun e => negb (truthy (trashed (snd e)))) docs)).

Definition createWordbook (userId name : string) : M Wordbook :=
  t1 <- now ;;
  id <- addWordbookDoc userId {| wb_name := name; wb_userId := userId; wb_createdAt := t1;
                                 trashed := Some false; trashedAt := Some None |} ;;
  t2 <- now ;;
  ret {| wb_id := id;
         wb_data := {| wb_name := name; wb_userId := userId; wb_createdAt := t2;
                       trashed := Some false; trashedAt := Some None |} |}.

Definition deleteWordbook (userId wordbookId : string) : M unit :=
  wordsSnap <- getWordDocs userId wordbookId ;;
  iter (fun e => deleteWordDoc userId wordbookId (fst e)) wordsSnap ;;
  deleteWordbookDoc userId wordbookId.

Definition trashWordbook (userId wordbookId : string) : M unit :=
  t <- now ;;
  updateWordbookDoc userId wordbookId
    {| pw_name := None; pw_trashed := Some true; pw_trashedAt := Some (Some t) |}.

Definition getTrashedWordbooksByUserId (userId : string) : M (list Wordbook) :=
  docs <- getWordbookDocs userId ;;
  ret (map toWordbook (filter (fun e => truthy (trashed (snd e))) docs)).

Definition clearTrashedWordbooks (userId : string) : M unit :=
  tr <- getTrashedWordbooksByUserId userId ;;
  iter (fun wb => deleteWordbook userId (wb_id wb)) tr.

Definition updateWordbookName (userId wordbookId newName : string) : M unit :=
  updateWordbookDoc userId wordbookId
    {| pw_name := Some newName; pw_trashed := None; pw_trashedAt := None |}.

Definition getWordbook (userId wordbookId : string) : M (option Wordbook) :=
  snap <- getWordbookDoc userId wordbookId ;;
  match snap with
  | None => ret None
  | Some d => ret (Some (toWordbook (wordbookId, d)))
  end.

(** ** Word operations *)

Definition getWordsByWordbookId (userId wordbookId : string) : M (list Word) :=
  let key := makeCacheKey userId wordbookId in
  s <- get ;;
  match wordCache s key with
  | Some ws => ret ws
  | None =>
      snapshot <- getWordDocs userId wordbookId ;;
      let words := map toWord snapshot in
      modify (fun s => set_wordCache (cache_put key words (wordCache s)) s) ;;
      ret words
  end.

(** [if (wordCache[key]) wordCache[key] = f(wordCache[key])] *)
Definition updateWordCache (key : string) (f : list Word -> list Word) : M unit :=
  s <- get ;;
  match wordCache s key with
  | Some ws => modify (fun s => set_wordCache (cache_put key (f ws) (wordCache s)) s)
  | None => ret tt
  end.

Definition createWord (userId wordbookId : string) (wordData : WordInput) : M Word :=
  t1 <- now ;;
  id <- addWordDoc userId wordbookId
          {| d_id := None; d_fields := mkWordFields wordData wordbookId t1 |} ;;
  t2 <- now ;;
  let newWord := {| w_id := id; w_fields := mkWordFields wordData wordbookId t2 |} in
  updateWordCache (makeCacheKey userId wordbookId) (fun ws => ws ++ [newWord]) ;;
  ret newWord.

Definition updateWord (userId wordbookId wordId : string) (updateData : WordPatch) : M unit :=
  updateWordDoc userId wordbookId wordId updateData ;;
  updateWordCache (makeCacheKey userId wordbookId)
    (map (fun w => if String.eqb (w_id w) wordId then patch_word updateData w else w)).

Definition deleteWord (userId wordbookId wordId : string) : M unit :=
  deleteWordDoc userId wordbookId wordId ;;
  updateWordCache (makeCacheKey userId wordbookId)
    (filter (fun w => negb (String.eqb (w_id w) wordId))).

(** The [data.forEach] of [bulkImportWords]: one [doc(colRef)] per item. *)
Fixpoint stageImports (wordbookId : string) (createdAt : Timestamp)
  (data : list WordInput) : M (list Word) :=
  match data with
  | [] => ret []
  | d :: ds =>
      id <- autoId ;;
      let w := {| w_id := id; w_fields := mkWordFields d wordbookId createdAt |} in
      rest <- stageImports wordbookId createdAt ds ;;
      ret (w :: rest)
  end.

(** [batch.set(docRef, word)]: the stored document carries the [id] key. *)
Definition setWordWrite (w : Word) : WordWrite :=
  WSet (w_id w) {| d_id := Some (w_id w); d_fields := w_fields w |}.

Definition bulkImportWords (userId wordbookId : string) (data : list WordInput)
  : M (list Word) :=
  createdAt <- now ;;
  newWords <- stageImports wordbookId createdAt data ;;
  commitWordBatch userId wordbookId (map setWordWrite newWords) ;;
  let key := makeCacheKey userId wordbookId in
  s <- get ;;
  match wordCache s key with
  | Some ws => modify (fun s => set_wordCache (cache_put key (ws ++ newWords) (wordCache s)) s)
  | None => modify (fun s => set_wordCache (cache_put key newWords (wordCache s)) s)
  end ;;
  ret newWords.

Definition resetWord (w : Word) : Word := patch_word reset_patch w.

Definition resetWordsProgress (userId wordbookId : string) (ids : list string) : M unit :=
  commitWordBatch userId wordbookId (map (fun id => WUpdate id reset_patch) ids) ;;
  updateWordCache (makeCacheKey userId wordbookId)
    (map (fun w => if existsb (String.eqb (w_id w)) ids then resetWord w else w)).

Definition bulkDeleteWords (userId wordbookId : string) (ids : list string) : M unit :=
  commitWordBatch userId wordbookId (map WDelete ids) ;;
  updateWordCache (makeCacheKey userId wordbookId)
    (filter (fun w => negb (existsb (String.eqb (w_id w)) ids))).

(** ** Part-of-speech tag operations *)

Definition getPartOfSpeechTags (userId : string) : M (list PartOfSpeechTag) :=
  s <- get ;;
  match posTagCache s userId with
  | Some ts => ret ts
  | None =>
      snapshot <- getTagDocs userId ;;
      let tags := map toTag snapshot in
      modify (fun s => set_posTagCache (cache_put userId tags (posTagCache s)) s) ;;
      ret tags
  end.

Definition updateTagCache (userId : string)
  (f : list PartOfSpeechTag -> list PartOfSpeechTag) : M unit :=
  s <- get ;;
  match posTagCache s userId with
  | Some ts => modify (fun s => set_posTagCache (cache_put userId (f ts) (posTagCache s)) s)
  | None => ret tt
  end.

Definition createPartOfSpeechTag (userId : string) (data : TagInput) : M PartOfSpeechTag :=
  let fields := {| tag_name := ti_name data; color := ti_color data; tag_userId := userId |} in
  id <- addTagDoc userId {| td_id := None; td_fields := fields |} ;;
  let tag := {| t_id := id; t_fields := fields |} in
  updateTagCache userId (fun ts => ts ++ [tag]) ;;
  ret tag.

Definition updatePartOfSpeechTag (userId tagId : string) (data : TagPatch) : M unit :=
  updateTagDoc userId tagId data ;;
  updateTagCache userId
    (map (fun t => if String.eqb (t_id t) tagId then patch_tag data t else t)).

(** Phase (a) for one wordbook: rewrite each matching word's tag list. *)
Definition stripTagInWordbook (userId tagId : string) (wb : string * WordbookData) : M unit :=
  wordsSnap <- queryWordsByPos userId (fst wb) tagId ;;
  iter (fun e =>
          let updated := filter (fun t => negb (String.eqb t tagId))
                                (partOfSpeech (d_fields (snd e))) in
          updateWordDoc userId (fst wb) (fst e) (pos_patch updated))
       wordsSnap.

Definition deletePartOfSpeechTag (userId tagId : string) : M unit :=
  wordbooksSnap <- getWordbookDocs userId ;;
  iter (stripTagInWordbook userId tagId) wordbooksSnap ;;
  deleteTagDoc userId tagId ;;
  updateTagCache userId (filter (fun t => negb (String.eqb (t_id t) tagId))).

(** ** Every exported operation, for statements about all of them *)

Inductive Op :=
| OpGetWordbooks (u : string)
| OpCreateWordbook (u name : string)
| OpDeleteWordbook (u wb : string)
| OpTrashWordbook (u wb : string)
| OpGetTrashedWordbooks (u : string)
| OpClearTrashedWordbooks (u : string)
| OpUpdateWordbookName (u wb name : string)
| OpGetWordbook (u wb : string)
| OpGetWords (u wb : string)
| OpCreateWord (u wb : string) (d : WordInput)
| OpUpdateWord (u wb id : string) (p : WordPatch)
| OpDeleteWord (u wb id : string)
| OpBulkImportWords (u wb : string) (ds : list WordInput)
| OpResetWordsProgress (u wb : string) (ids : list string)
| OpBulkDeleteWords (u wb : string) (ids : list string)
| OpGetPartOfSpeechTags (u : string)
| OpCreatePartOfSpeechTag (u : string) (d : TagInput)
| OpUpdatePartOfSpeechTag (u id : string) (p : TagPatch)
| OpDeletePartOfSpeechTag (u id : string).

Definition discard {A} (m : M A) : M unit := _ <- m ;; ret tt.

Definition run_op (o : Op) : M unit :=
  match o with
  | OpGetWordbooks u => discard (getWordbooksByUserId u)
  | OpCreateWordbook u n => discard (createWordbook u n)
  | OpDeleteWordbook u wb => deleteWordbook u wb
  | OpTrashWordbook u wb => trashWordbook u wb
  | OpGetTrashedWordbooks u => discard (getTrashedWordbooksByUserId u)
  | OpClearTrashedWordbooks u => clearTrashedWordbooks u
  | OpUpdateWordbookName u wb n => updateWordbookName u wb n
  | OpGetWordbook u wb => discard (getWordbook u wb)
  | OpGetWords u wb => discard (getWordsByWordbookId u wb)
  | OpCreateWord u wb d => discard (createWord u wb d)
  | OpUpdateWord u wb id p => updateWord u wb id p
  | OpDeleteWord u wb id => deleteWord u wb id
  | OpBulkImportWords u wb ds => discard (bulkImportWords u wb ds)
  | OpResetWordsProgress u wb ids => resetWordsProgress u wb ids
  | OpBulkDeleteWords u wb ids => bulkDeleteWords u wb ids
  | OpGetPartOfSpeechTags u => discard (getPartOfSpeechTags u)
  | OpCreatePartOfSpeechTag u d => discard (createPartOfSpeechTag u d)
  | OpUpdatePartOfSpeechTag u id p => updatePartOfSpeechTag u id p
  | OpDeletePartOfSpeechTag u id => deletePartOfSpeechTag u id
  end.

(** A run of operations; a failed call does not stop later ones. *)
Fixpoint run_ops (os : list Op) (s : St) : St :=
  match os with
  | [] => s
  | o :: os' => run_ops os' (snd (run_op o s))
  end.

(** ** Sample data used by examples and witnesses *)

Definition sampleFields (pos : list string) (wb : string) : WordFields := {|
  word := "ni hao"; pinyin := "ni3 hao3"; favorite := false; translation := "hello";
  partOfSpeech := pos; exampleSentence := ""; exampleTranslation := "";
  relatedWords := None; usageFrequency := 1%Z; mastery := 3%Z; note := "";
  wordbookId := wb; createdAt := 100%Z; reviewDate := Some (Some 200%Z);
  studyCount := Some 4%Z |}.

Definition sampleInput (w : string) : WordInput := {|
  i_word := w; i_pinyin := ""; i_favorite := false; i_translation := "";
  i_partOfSpeech := []; i_exampleSentence := ""; i_exampleTranslation := "";
  i_relatedWords := None; i_usageFrequency := 0%Z; i_mastery := 0%Z; i_note := "" |}.

Definition sampleWordbook (tr : bool) : WordbookData := {|
  wb_name := "HSK 1"; wb_userId := "u1"; wb_createdAt := 1%Z;
  trashed := Some tr; trashedAt := Some None |}.

Definition emptyStore : Store := {|
  s_wordbooks := fun _ => []; s_words := fun _ _ => []; s_posTags := fun _ => [] |}.

(** User "u1" owns wordbook "wb1" holding word "w1" tagged "t1", and tag "t1". *)
Definition sampleStore : Store := {|
  s_wordbooks := fun u => if String.eqb u "u1" then [("wb1", sampleWordbook false)] else [];
  s_words := fun u wb =>
    if String.eqb u "u1" && String.eqb wb "wb1"
    then [("w1", {| d_id := None; d_fields := sampleFields ["t1"] "wb1" |})] else [];
  s_posTags := fun u =>
    if String.eqb u "u1"
    then [("t1", {| td_id := None;
                    td_fields := {| tag_name := "noun"; color := "red"; tag_userId := "u1" |} |})]
    else [] |}.

(** Clock reads return 10, 11, 12, ...; generated ids are one-letter strings. *)
Definition initSt (x : Store) : St := {|
  st_store := x; wordCache := fun _ => None; posTagCache := fun _ => None;
  st_clock := fun n => (10 + Z.of_nat n)%Z; st_tick := 0;
  st_autoId := fun n => String (Ascii.ascii_of_nat (65 + n)) EmptyString;
  st_idn := 0; st_log := [] |}.

Definition sampleWord : Word := toWord ("w1", {| d_id := None; d_fields := sampleFields ["t1"] "wb1" |}).

(** The sample state after [getWordsByWordbookId "u1" "wb1"] filled the cache. *)
Definition warmSt : St := snd (getWordsByWordbookId "u1" "wb1" (initSt sampleStore)).

(** The sample store with a second tag "t2". *)
Definition twoTagStore : Store := {|
  s_wordbooks := s_wordbooks sampleStore;
  s_words := s_words sampleStore;
  s_posTags := fun u =>
    s_posTags sampleStore u ++
    (if String.eqb u "u1"
     then [("t2", {| td_id := None;
                     td_fields := {| tag_name := "verb"; color := "blue"; tag_userId := "u1" |} |})]
     else []) |}.

(** [updatePartOfSpeechTag("u1", "t2", { id: "t1" })]: a [Partial<PartOfSpeechTag>]
    may carry [id], which [updateDoc] stores as a field of the document. *)
Definition idPatch : TagPatch := {|
  tp_id := Some "t1"; tp_name := None; tp_color := None; tp_userId := None |}.

Definition tagIdFieldScenario : M (list PartOfSpeechTag) :=
  updatePartOfSpeechTag "u1" "t2" idPatch ;;
  deletePartOfSpeechTag "u1" "t1" ;;
  getPartOfSpeechTags "u1".

Example getWords_cold_reads_store :
  fst (getWordsByWordbookId "u1" "wb1" (initSt sampleStore)) = Ok [sampleWord].
Proof. reflexivity. Qed.

Example bulkImport_sample :
  map w_id (match fst (bulkImportWords "u1" "wb1" [sampleInput "a"; sampleInput "b"]
                                       (initSt emptyStore)) with
            | Ok ws => ws | Err _ => [] end) = ["A"; "B"].
Proof. reflexivity. Qed.

(** * Proofs *)

(** ** Generic facts about collections and caches *)

Lemma lookup_None_iff {D} (k : string) (c : Coll D) :
  lookup k c = None <-> forall d, ~ In (k, d) c.
Proof.
  induction c as [|[k' d'] c IH]; simpl.
  - split; auto.
  - destruct (String.eqb_spec k k') as [->|Hne].
    + split; [discriminate|]. intros H. exfalso. apply (H d'). left; reflexivity.
    + rewrite IH. split.
      * intros H d [Heq|Hin]; [inversion Heq; congruence | exact (H d Hin)].
      * intros H d Hin. apply (H d). right; exact Hin.
Qed.

Lemma lookup_In {D} (k : string) (c : Coll D) (d : D) :
  lookup k c = Some d -> In (k, d) c.
Proof.
  induction c as [|[k' d'] c IH]; simpl; [discriminate|].
  destruct (String.eqb_spec k k') as [->|_].
  - intros H; inversion H; left; reflexivity.
  - intros H; right; auto.
Qed.

Lemma cache_put_same {V} (k : string) (v : V) c : cache_put k v c k = Some v.
Proof. unfold cache_put. rewrite String.eqb_refl. reflexivity. Qed.

Lemma cache_put_other {V} (k k' : string) (v : V) c : k' <> k -> cache_put k v c k' = c k'.
Proof. unfold cache_put. intros H. destruct (String.eqb_spec k' k); congruence. Qed.

Lemma toWordbook_inj (e e' : string * WordbookData) : toWordbook e = toWordbook e' -> e = e'.
Proof. destruct e, e'; unfold toWordbook; simpl; intros H; inversion H; reflexivity. Qed.

Lemma filter_split_perm {A B} (g : A -> B) (p : A -> bool) (l : list A) :
  Permutation (map g (filter (fun x => negb (p x)) l) ++ map g (filter p l)) (map g l).
Proof.
  induction l as [|a l IH]; simpl; [constructor|].
  destruct (p a); simpl.
  - eapply perm_trans; [apply Permutation_sym, Permutation_middle|]. constructor; exact IH.
  - constructor; exact IH.
Qed.

Lemma In_map_toWordbook_filter (f : string * WordbookData -> bool) c e :
  In (toWordbook e) (map toWordbook (filter f c)) <-> In e c /\ f e = true.
Proof.
  rewrite in_map_iff. split.
  - intros [e' [Heq Hin]]. apply toWordbook_inj in Heq; subst. apply filter_In; exact Hin.
  - intros H. exists e. split; [reflexivity|]. apply filter_In; exact H.
Qed.

Ltac run_m :=
  cbv [bind ret get modify emit modify_store throw now autoId discard] in *; simpl in *.

(** ** Reads of wordbooks *)

(** C8: a missing wordbook document is reported as [null], never as an error;
    an existing one is returned with the document id and its stored fields. *)
Theorem getWordbook_null_when_missing (userId wordbookId : string) :
  (forall s, (forall d, ~ In (wordbookId, d) (s_wordbooks (st_store s) userId)) ->
     fst (getWordbook userId wordbookId s) = Ok None) /\
  (forall s d, lookup wordbookId (s_wordbooks (st_store s) userId) = Some d ->
     fst (getWordbook userId wordbookId s) = Ok (Some {| wb_id := wordbookId; wb_data := d |})) /\
  (forall s e, fst (getWordbook userId wordbookId s) <> Err e).
Proof.
  unfold getWordbook, getWordbookDoc. run_m. split; [|split].
  - intros s H. apply lookup_None_iff in H. rewrite H. reflexivity.
  - intros s d H. rewrite H. reflexivity.
  - intros s e. destruct (lookup _ _); discriminate.
Qed.

Lemma getWordbook_null_when_missing_witness :
  fst (getWordbook "u1" "nope" (initSt sampleStore)) = Ok None /\
  fst (getWordbook "u1" "wb1" (initSt sampleStore))
    = Ok (Some {| wb_id := "wb1"; wb_data := sampleWordbook false |}).
Proof.
  destruct (getWordbook_null_when_missing "u1" "nope") as [H1 _].
  destruct (getWordbook_null_when_missing "u1" "wb1") as [_ [H2 _]].
  split.
  - apply H1. simpl. intros d [H|H]; [discriminate | exact H].
  - apply H2. reflexivity.
Defined.

(** C10: the live and the trashed listings split the user's wordbook
    collection by the [trashed] flag: disjoint, and together a permutation of
    all documents. *)
Theorem wordbook_listings_partition (userId : string) (s : St) :
  exists l1 l2,
    fst (getWordbooksByUserId userId s) = Ok l1 /\
    fst (getTrashedWordbooksByUserId userId s) = Ok l2 /\
    (forall w, In w l1 -> ~ In w l2) /\
    (forall e, In e (s_wordbooks (st_store s) userId) ->
       (In (toWordbook e) l1 <-> truthy (trashed (snd e)) = false) /\
       (In (toWordbook e) l2 <-> truthy (trashed (snd e)) = true)) /\
    Permutation (l1 ++ l2) (map toWordbook (s_wordbooks (st_store s) userId)).
Proof.
  unfold getWordbooksByUserId, getTrashedWordbooksByUserId, getWordbookDocs. run_m.
  set (c := s_wordbooks (st_store s) userId).
  eexists; eexists. split; [reflexivity|]. split; [reflexivity|].
  split; [|split].
  - intros w H1 H2. apply in_map_iff in H1 as [e [<- H1]].
    apply In_map_toWordbook_filter in H2 as [_ H2].
    apply filter_In in H1 as [_ H1]. rewrite H2 in H1. discriminate.
  - intros e He. rewrite !In_map_toWordbook_filter. split.
    + destruct (truthy (trashed (snd e))); simpl; split; intuition discriminate.
    + split; intuition.
  - apply (filter_split_perm toWordbook (fun e => truthy (trashed (snd e)))).
Qed.

(** ** The word cache *)

(** C5: a populated cache entry is returned as is, with no store call and no
    state change; so a second call returns what the first returned whatever
    an outside writer did to the store in between. *)
Theorem getWords_cache_first (userId wordbookId : string) :
  (forall s l, wordCache s (makeCacheKey userId wordbookId) = Some l ->
     getWordsByWordbookId userId wordbookId s = (Ok l, s)) /\
  (forall s external,
     fst (getWordsByWordbookId userId wordbookId
            (set_store external (snd (getWordsByWordbookId userId wordbookId s))))
     = fst (getWordsByWordbookId userId wordbookId s)).
Proof.
  unfold getWordsByWordbookId, getWordDocs. run_m. split.
  - intros s l H. rewrite H. reflexivity.
  - intros s x. destruct (wordCache s _) as [l|] eqn:E; simpl.
    + rewrite E. reflexivity.
    + rewrite cache_put_same. reflexivity.
Qed.

Lemma getWords_cache_first_witness :
  getWordsByWordbookId "u1" "wb1" warmSt = (Ok [sampleWord], warmSt) /\
  fst (getWordsByWordbookId "u1" "wb1" (set_store emptyStore warmSt)) = Ok [sampleWord].
Proof.
  destruct (getWords_cache_first "u1" "wb1") as [H1 H2]. split.
  - apply H1. reflexivity.
  - exact (H2 (initSt sampleStore) emptyStore).
Defined.

(** ** Deleting a wordbook *)

(** C1 at a warm cache: [deleteWordbook] removes the words and the wordbook
    from the store but leaves the cache entry, which the next
    [getWordsByWordbookId] returns. *)
Theorem deleteWordbook_keeps_cached_words :
  let s1 := snd (deleteWordbook "u1" "wb1" warmSt) in
  fst (deleteWordbook "u1" "wb1" warmSt) = Ok tt /\
  s_words (st_store s1) "u1" "wb1" = [] /\
  fst (getWordbook "u1" "wb1" s1) = Ok None /\
  fst (getWordsByWordbookId "u1" "wb1" s1) = Ok [sampleWord].
Proof. repeat split; reflexivity. Qed.

Lemma filter_twice {A} (f g : A -> bool) (l : list A) :
  filter f (filter g l) = filter (fun x => g x && f x) l.
Proof.
  induction l as [|a l IH]; simpl; [reflexivity|].
  destruct (g a); simpl; [destruct (f a); simpl|]; rewrite IH; reflexivity.
Qed.

Lemma filter_all_keys_nil {D} (c : Coll D) :
  filter (fun e => negb (existsb (fun x => String.eqb (fst e) (fst x)) c)) c = [].
Proof.
  rewrite (filter_ext_in _ (fun _ => false)); [apply filter_false|].
  intros e He.
  assert (existsb (fun x => String.eqb (fst e) (fst x)) c = true) as ->.
  { apply existsb_exists. exists e. split; [exact He | apply String.eqb_refl]. }
  reflexivity.
Qed.

Lemma lookup_coll_delete_same {D} (k : string) (c : Coll D) : lookup k (coll_delete k c) = None.
Proof.
  apply lookup_None_iff. intros d Hin. unfold coll_delete in Hin.
  apply filter_In in Hin as [_ H]. simpl in H. rewrite String.eqb_refl in H. discriminate.
Qed.

Lemma deleteWordDoc_eq (u wb k : string) (s : St) :
  deleteWordDoc u wb k s =
  (Ok tt, set_store (upd_words u wb (coll_delete k) (st_store s))
            (set_log (st_log s ++ [EvDeleteDoc (wordPath u wb k)]) s)).
Proof. reflexivity. Qed.

Lemma iter_deleteWordDoc (u wb : string) (xs : Coll WordData) (s : St) :
  exists s', iter (fun e => deleteWordDoc u wb (fst e)) xs s = (Ok tt, s') /\
    s_words (st_store s') u wb =
      filter (fun e => negb (existsb (fun x => String.eqb (fst e) (fst x)) xs))
             (s_words (st_store s) u wb) /\
    s_wordbooks (st_store s') = s_wordbooks (st_store s) /\
    wordCache s' = wordCache s.
Proof.
  revert s. induction xs as [|x xs IH]; intros s; simpl.
  - exists s. split; [reflexivity|]. split; [|split; reflexivity].
    symmetry. apply filter_true.
  - unfold bind at 1. rewrite deleteWordDoc_eq.
    destruct (IH (set_store (upd_words u wb (coll_delete (fst x)) (st_store s))
                   (set_log (st_log s ++ [EvDeleteDoc (wordPath u wb (fst x))]) s)))
      as [s' [Hrun [Hw [Hb Hc]]]].
    exists s'. rewrite Hrun. split; [reflexivity|].
    rewrite Hw, Hb, Hc. simpl. rewrite !String.eqb_refl. simpl.
    split; [|split; reflexivity].
    unfold coll_delete. rewrite filter_twice. apply filter_ext. intros e.
    rewrite String.eqb_sym. destruct (String.eqb (fst x) (fst e)); reflexivity.
Qed.

(** On a cold cache entry, [deleteWordbook] leaves nothing behind: the
    wordbook reads as [null] and its word list is empty. *)
Lemma deleteWordbook_cold_cache_empty (u wb : string) (s s' : St) :
  deleteWordbook u wb s = (Ok tt, s') ->
  fst (getWordbook u wb s') = Ok None /\
  s_words (st_store s') u wb = [] /\
  (wordCache s (makeCacheKey u wb) = None ->
   fst (getWordsByWordbookId u wb s') = Ok []).
Proof.
  unfold deleteWordbook, getWordDocs. run_m.
  set (s1 := set_log _ s).
  destruct (iter_deleteWordDoc u wb (s_words (st_store s) u wb) s1) as [s2 [Hrun [Hw [Hb Hc]]]].
  rewrite Hrun. unfold deleteWordbookDoc. run_m. intros H. inversion H; subst; clear H.
  unfold getWordbook, getWordbookDoc, getWordsByWordbookId, getWordDocs. run_m.
  rewrite !String.eqb_refl. simpl. rewrite lookup_coll_delete_same, Hw. simpl.
  rewrite filter_all_keys_nil. split; [reflexivity|]. split; [reflexivity|].
  intros Hcold. rewrite Hc. simpl. rewrite Hcold. simpl.
  rewrite Hw, filter_all_keys_nil. reflexivity.
Qed.

(** ** Creating a wordbook *)

Lemma lookup_app_fresh {D} (k : string) (d : D) (c : Coll D) :
  lookup k c = None -> lookup k (c ++ [(k, d)]) = Some d.
Proof.
  induction c as [|[k' d'] c IH]; simpl.
  - rewrite String.eqb_refl. reflexivity.
  - destruct (String.eqb k k'); [discriminate | exact IH].
Qed.

(** C7: the stored document carries the first clock reading, taken before
    the [addDoc]; the returned record carries a second reading taken after
    it, and the two can differ. *)
Theorem createWordbook_restamps_createdAt (userId name : string) :
  (forall s wb s', createWordbook userId name s = (Ok wb, s') ->
     wb_id wb = st_autoId s (st_idn s) /\
     lookup (wb_id wb) (s_wordbooks (st_store s') userId) =
       Some {| wb_name := name; wb_userId := userId; wb_createdAt := st_clock s (st_tick s);
               trashed := Some false; trashedAt := Some None |} /\
     wb_data wb =
       {| wb_name := name; wb_userId := userId; wb_createdAt := st_clock s (S (st_tick s));
          trashed := Some false; trashedAt := Some None |} /\
     st_tick s' = S (S (st_tick s)) /\
     st_log s' = st_log s ++ [EvAddDoc (wordbooksPath userId)]) /\
  (exists s wb s' d, createWordbook userId name s = (Ok wb, s') /\
     lookup (wb_id wb) (s_wordbooks (st_store s') userId) = Some d /\
     wb_createdAt d <> wb_createdAt (wb_data wb)).
Proof.
  unfold createWordbook, addWordbookDoc. run_m. split.
  - intros s wb s'. destruct (lookup _ _) eqn:E; [discriminate|].
    intros H. inversion H; subst; clear H. simpl. rewrite String.eqb_refl.
    rewrite (lookup_app_fresh _ _ _ E). repeat split; reflexivity.
  - exists (initSt emptyStore). simpl.
    do 3 eexists. split; [reflexivity|]. simpl. rewrite String.eqb_refl. simpl.
    split; [reflexivity|]. simpl. discriminate.
Qed.

Lemma createWordbook_restamps_createdAt_witness :
  exists wb s', createWordbook "u1" "HSK 2" (initSt emptyStore) = (Ok wb, s') /\
    wb_id wb = "A" /\ wb_createdAt (wb_data wb) = 11%Z /\
    lookup "A" (s_wordbooks (st_store s') "u1") =
      Some {| wb_name := "HSK 2"; wb_userId := "u1"; wb_createdAt := 10%Z;
              trashed := Some false; trashedAt := Some None |}.
Proof.
  destruct (createWordbook "u1" "HSK 2" (initSt emptyStore)) as [r s'] eqn:E.
  destruct r as [wb|e]; [|discriminate].
  destruct (proj1 (createWordbook_restamps_createdAt "u1" "HSK 2") _ _ _ E)
    as [Hid [Hst [Hdata _]]].
  exists wb, s'. split; [reflexivity|].
  rewrite Hdata. rewrite Hid in Hst. split; [exact Hid|]. split; [reflexivity|]. exact Hst.
Defined.

(** ** Bulk import *)

Lemma bind_ok {A B} (m : M A) (k : A -> M B) (s s1 : St) (a : A) :
  m s = (Ok a, s1) -> bind m k s = k a s1.
Proof. intros H. unfold bind. rewrite H. reflexivity. Qed.

Lemma autoId_eq (s : St) : autoId s = (Ok (st_autoId s (st_idn s)), set_idn (S (st_idn s)) s).
Proof. reflexivity. Qed.

Lemma now_eq (s : St) : now s = (Ok (st_clock s (st_tick s)), set_tick (S (st_tick s)) s).
Proof. reflexivity. Qed.

Lemma stageImports_spec (wbId : string) (t : Timestamp) (data : list WordInput) :
  forall s, exists ws,
    stageImports wbId t data s = (Ok ws, set_idn (st_idn s + length data) s) /\
    map w_id ws = map (st_autoId s) (seq (st_idn s) (length data)) /\
    Forall2 (fun d w => w_fields w = mkWordFields d wbId t) data ws.
Proof.
  induction data as [|d ds IH]; intros s.
  - exists []. destruct s; simpl. rewrite Nat.add_0_r. repeat split; constructor.
  - destruct (IH (set_idn (S (st_idn s)) s)) as [ws [E [Hids HF]]].
    eexists. cbn [stageImports]. rewrite (bind_ok _ _ _ _ _ (autoId_eq s)). cbv beta zeta.
    rewrite (bind_ok _ _ _ _ _ E). unfold ret. split; [|split].
    + simpl. replace (st_idn s + S (length ds)) with (S (st_idn s) + length ds) by lia.
      reflexivity.
    + simpl. f_equal. exact Hids.
    + constructor; [reflexivity | exact HF].
Qed.

Lemma Forall2_In_r {A B} (R : A -> B -> Prop) (l1 : list A) (l2 : list B) (y : B) :
  Forall2 R l1 l2 -> In y l2 -> exists x, In x l1 /\ R x y.
Proof.
  induction 1 as [|x y' l1 l2 Hxy _ IH]; simpl; [contradiction|].
  intros [<-|Hin]; [exists x; auto|].
  destruct (IH Hin) as [x' [Hx' Hr]]. exists x'; auto.
Qed.

Lemma apply_writes_sets (ws : list Word) (c : Coll WordData) :
  exists c', apply_writes (map setWordWrite ws) c = Some c'.
Proof.
  revert c. induction ws as [|w ws IH]; intros c; simpl; [eauto|]. apply IH.
Qed.

Lemma commit_eq (u wb : string) (ws : list WordWrite) (s : St) (c : Coll WordData) :
  apply_writes ws (s_words (st_store s) u wb) = Some c ->
  commitWordBatch u wb ws s =
  (Ok tt, set_store (upd_words u wb (fun _ => c) (st_store s))
            (set_log (st_log s ++ [EvCommit (wordsPath u wb) ws]) s)).
Proof. intros H. unfold commitWordBatch. run_m. rewrite H. reflexivity. Qed.

Lemma upd_words_other (u wb u' wb' : string) f (x : Store) :
  u' <> u \/ wb' <> wb -> s_words (upd_words u wb f x) u' wb' = s_words x u' wb'.
Proof.
  intros H. simpl. destruct (String.eqb_spec u' u), (String.eqb_spec wb' wb);
    simpl; try reflexivity; intuition congruence.
Qed.

Lemma upd_words_same (u wb : string) f (x : Store) :
  s_words (upd_words u wb f x) u wb = f (s_words x u wb).
Proof. simpl. rewrite !String.eqb_refl. reflexivity. Qed.

(** C3: one clock reading shared by the whole import, one generated id per
    item, a single batch commit carrying the N [set] writes, and the words
    readable straight away through [getWordsByWordbookId]. *)
Theorem bulkImportWords_one_batch_one_timestamp (u wb : string)
  (data : list WordInput) (s : St) :
  exists ws s',
    bulkImportWords u wb data s = (Ok ws, s') /\
    length ws = length data /\
    map w_id ws = map (st_autoId s) (seq (st_idn s) (length data)) /\
    st_idn s' = st_idn s + length data /\
    st_tick s' = S (st_tick s) /\
    Forall2 (fun d w => w_fields w = mkWordFields d wb (st_clock s (st_tick s))) data ws /\
    (forall w, In w ws ->
       createdAt (w_fields w) = st_clock s (st_tick s) /\
       reviewDate (w_fields w) = Some None /\
       studyCount (w_fields w) = Some 0%Z /\
       wordbookId (w_fields w) = wb) /\
    st_log s' = st_log s ++ [EvCommit (wordsPath u wb) (map setWordWrite ws)] /\
    apply_writes (map setWordWrite ws) (s_words (st_store s) u wb)
      = Some (s_words (st_store s') u wb) /\
    (forall u' wb', u' <> u \/ wb' <> wb ->
       s_words (st_store s') u' wb' = s_words (st_store s) u' wb') /\
    (exists old, fst (getWordsByWordbookId u wb s') = Ok (old ++ ws) /\
       (wordCache s (makeCacheKey u wb) = None -> old = [])).
Proof.
  unfold bulkImportWords.
  rewrite (bind_ok _ _ _ _ _ (now_eq s)). cbv beta.
  set (t := st_clock s (st_tick s)).
  destruct (stageImports_spec wb t data (set_tick (S (st_tick s)) s))
    as [ws [E [Hids HF]]].
  rewrite (bind_ok _ _ _ _ _ E).
  set (s2 := set_idn _ _).
  destruct (apply_writes_sets ws (s_words (st_store s2) u wb)) as [c Hc].
  rewrite (bind_ok _ _ _ _ _ (commit_eq _ _ _ _ _ Hc)). cbv zeta.
  assert (Hlen : length ws = length data) by (symmetry; eapply Forall2_length; exact HF).
  assert (Hf : forall w, In w ws ->
       createdAt (w_fields w) = t /\ reviewDate (w_fields w) = Some None /\
       studyCount (w_fields w) = Some 0%Z /\ wordbookId (w_fields w) = wb).
  { intros w Hw. destruct (Forall2_In_r _ _ _ _ HF Hw) as [d [_ Hd]].
    rewrite Hd. repeat split; reflexivity. }
  destruct (wordCache s (makeCacheKey u wb)) as [old|] eqn:Ec;
    (do 2 eexists; split;
     [unfold bind, get, modify, ret; simpl; rewrite Ec; reflexivity|]);
    (split; [exact Hlen|]); (split; [exact Hids|]); (split; [reflexivity|]);
    (split; [reflexivity|]); (split; [exact HF|]); (split; [exact Hf|]);
    (split; [reflexivity|]);
    (split; [cbn [st_store set_wordCache set_store]; rewrite upd_words_same; exact Hc|]);
    (split; [intros u' wb' Hne; cbn [st_store set_wordCache set_store];
             apply upd_words_other; exact Hne|]).
  - exists old. unfold getWordsByWordbookId. run_m. rewrite cache_put_same.
    split; [reflexivity | discriminate].
  - exists []. unfold getWordsByWordbookId. run_m. rewrite cache_put_same.
    split; reflexivity.
Qed.

Lemma bulkImportWords_one_batch_one_timestamp_witness :
  exists ws s',
    bulkImportWords "u1" "wb1" [sampleInput "a"; sampleInput "b"] (initSt emptyStore) = (Ok ws, s') /\
    fst (getWordsByWordbookId "u1" "wb1" s') = Ok ws.
Proof.
  destruct (bulkImportWords_one_batch_one_timestamp "u1" "wb1" [sampleInput "a"; sampleInput "b"]
              (initSt emptyStore))
    as [ws [s' [E [_ [_ [_ [_ [_ [_ [_ [_ [_ [old [Hg Hold]]]]]]]]]]]]]].
  exists ws, s'. split; [exact E|].
  rewrite (Hold eq_refl) in Hg. exact Hg.
Defined.

(** ** Resetting progress *)

Definition reset_if (ids : list string) (e : string * WordData) : string * WordData :=
  if existsb (String.eqb (fst e)) ids then (fst e, patch_data reset_patch (snd e)) else e.

Lemma reset_patch_idem (d : WordData) :
  patch_data reset_patch (patch_data reset_patch d) = patch_data reset_patch d.
Proof. reflexivity. Qed.

Lemma apply_resets (ids : list string) (c c' : Coll WordData) :
  apply_writes (map (fun id => WUpdate id reset_patch) ids) c = Some c' ->
  c' = map (reset_if ids) c.
Proof.
  revert c. induction ids as [|id ids IH]; intros c; simpl.
  - intros H. inversion H; subst. symmetry.
    rewrite (map_ext _ (fun e => e)); [apply map_id | reflexivity].
  - destruct (lookup id c) as [d|]; [|discriminate].
    intros H. rewrite (IH _ H). unfold coll_update. rewrite map_map. apply map_ext.
    intros [k d']. unfold reset_if. simpl.
    destruct (String.eqb k id); simpl.
    + destruct (existsb (String.eqb k) ids); reflexivity.
    + reflexivity.
Qed.

Lemma Forall2_map_r {A} (R : A -> A -> Prop) (f : A -> A) (l : list A) :
  (forall x, In x l -> R x (f x)) -> Forall2 R l (map f l).
Proof.
  induction l as [|x l IH]; simpl; intros H; constructor; auto.
Qed.

Lemma existsb_eqb_In (k : string) (l : list string) :
  existsb (String.eqb k) l = true <-> In k l.
Proof.
  rewrite existsb_exists. split.
  - intros [x [Hx Heq]]. apply String.eqb_eq in Heq. subst; exact Hx.
  - intros H. exists k. split; [exact H | apply String.eqb_refl].
Qed.

Lemma existsb_eqb_notIn (k : string) (l : list string) :
  existsb (String.eqb k) l = false <-> ~ In k l.
Proof.
  rewrite <- existsb_eqb_In. destruct (existsb _ _); split; congruence.
Qed.

(** The effect of a successful [resetWordsProgress] on one word, stored or cached. *)
Definition reset_entry_ok (ids : list string) (e e' : string * WordData) : Prop :=
  fst e' = fst e /\
  (In (fst e) ids ->
     snd e' = patch_data reset_patch (snd e) /\
     mastery (d_fields (snd e')) = 0%Z /\
     studyCount (d_fields (snd e')) = Some 0%Z /\
     reviewDate (d_fields (snd e')) = Some None) /\
  (~ In (fst e) ids -> e' = e).

Definition reset_word_ok (ids : list string) (w w' : Word) : Prop :=
  w_id w' = w_id w /\
  (In (w_id w) ids ->
     w' = resetWord w /\
     mastery (w_fields w') = 0%Z /\
     studyCount (w_fields w') = Some 0%Z /\
     reviewDate (w_fields w') = Some None) /\
  (~ In (w_id w) ids -> w' = w).

(** C4: after a successful reset, the listed word documents of the wordbook
    have mastery 0, studyCount 0 and reviewDate null with every other field
    kept, the other documents are untouched, nothing else in the store
    changes, and a present cache entry is rewritten the same way. *)
Theorem resetWordsProgress_frame (u wb : string) (ids : list string) (s s' : St) :
  resetWordsProgress u wb ids s = (Ok tt, s') ->
  Forall2 (reset_entry_ok ids) (s_words (st_store s) u wb) (s_words (st_store s') u wb) /\
  (forall u' wb', u' <> u \/ wb' <> wb ->
     s_words (st_store s') u' wb' = s_words (st_store s) u' wb') /\
  s_wordbooks (st_store s') = s_wordbooks (st_store s) /\
  s_posTags (st_store s') = s_posTags (st_store s) /\
  match wordCache s (makeCacheKey u wb) with
  | None => wordCache s' (makeCacheKey u wb) = None
  | Some ws => exists ws', wordCache s' (makeCacheKey u wb) = Some ws' /\
                           Forall2 (reset_word_ok ids) ws ws'
  end /\
  (forall k, k <> makeCacheKey u wb -> wordCache s' k = wordCache s k).
Proof.
  unfold resetWordsProgress. unfold bind at 1.
  destruct (commitWordBatch u wb (map (fun id => WUpdate id reset_patch) ids) s)
    as [[[]|e] s1] eqn:Ecommit; [|discriminate].
  destruct (apply_writes (map (fun id => WUpdate id reset_patch) ids)
              (s_words (st_store s) u wb)) as [c|] eqn:Ea.
  2:{ unfold commitWordBatch in Ecommit. run_m. rewrite Ea in Ecommit. discriminate. }
  rewrite (commit_eq _ _ _ _ _ Ea) in Ecommit. inversion Ecommit; subst s1; clear Ecommit.
  apply apply_resets in Ea. subst c.
  unfold updateWordCache. run_m.
  assert (Hstore : Forall2 (reset_entry_ok ids) (s_words (st_store s) u wb)
                     (map (reset_if ids) (s_words (st_store s) u wb))).
  { apply Forall2_map_r. intros [k d] _. unfold reset_if, reset_entry_ok. simpl.
    destruct (existsb (String.eqb k) ids) eqn:Ek.
    - apply existsb_eqb_In in Ek. simpl.
      split; [reflexivity|]. split; [intros _; repeat split; reflexivity|]. contradiction.
    - apply existsb_eqb_notIn in Ek.
      split; [reflexivity|]. split; [contradiction|]. reflexivity. }
  destruct (wordCache s (makeCacheKey u wb)) as [ws|] eqn:Ec;
    intros H; inversion H; subst s'; clear H; simpl;
    rewrite !String.eqb_refl; simpl.
  - split; [exact Hstore|]. split.
    { intros u' wb' Hne. destruct (String.eqb_spec u' u), (String.eqb_spec wb' wb);
        simpl; try reflexivity; intuition congruence. }
    split; [reflexivity|]. split; [reflexivity|]. split.
    + eexists. split; [apply cache_put_same|].
      apply Forall2_map_r. intros w _. unfold reset_word_ok.
      destruct (existsb (String.eqb (w_id w)) ids) eqn:Ek.
      * apply existsb_eqb_In in Ek.
        split; [reflexivity|]. split; [intros _; repeat split; reflexivity|]. contradiction.
      * apply existsb_eqb_notIn in Ek.
        split; [reflexivity|]. split; [contradiction|]. reflexivity.
    + intros k Hk. apply cache_put_other; exact Hk.
  - split; [exact Hstore|]. split.
    { intros u' wb' Hne. destruct (String.eqb_spec u' u), (String.eqb_spec wb' wb);
        simpl; try reflexivity; intuition congruence. }
    split; [reflexivity|]. split; [reflexivity|]. split; [exact Ec|].
    intros k _. reflexivity.
Qed.

Lemma resetWordsProgress_frame_witness :
  exists s', resetWordsProgress "u1" "wb1" ["w1"] warmSt = (Ok tt, s') /\
    Forall2 (reset_entry_ok ["w1"]) (s_words (st_store warmSt) "u1" "wb1")
                                    (s_words (st_store s') "u1" "wb1").
Proof.
  eexists. split; [reflexivity|].
  exact (proj1 (resetWordsProgress_frame "u1" "wb1" ["w1"] warmSt _ eq_refl)).
Defined.

(** ** Frame properties: state predicates kept by a computation, even when it fails *)

Definition keeps {A} (P : St -> Prop) (m : M A) : Prop :=
  forall s, P s -> P (snd (m s)).

Section Keeps.
Variable P : St -> Prop.

Lemma keeps_ret {A} (a : A) : keeps P (ret a).
Proof. intros s H; exact H. Qed.

Lemma keeps_get : keeps P get.
Proof. intros s H; exact H. Qed.

Lemma keeps_throw {A} (e : FsError) : keeps P (@throw A e).
Proof. intros s H; exact H. Qed.

Lemma keeps_modify (f : St -> St) : (forall s, P s -> P (f s)) -> keeps P (modify f).
Proof. intros Hf s H; exact (Hf s H). Qed.

Lemma keeps_bind {A B} (m : M A) (k : A -> M B) :
  keeps P m -> (forall a, keeps P (k a)) -> keeps P (bind m k).
Proof.
  intros Hm Hk s H. unfold bind. specialize (Hm s H).
  destruct (m s) as [[a|e] s']; [exact (Hk a s' Hm) | exact Hm].
Qed.

Lemma keeps_iter {A} (f : A -> M unit) (xs : list A) :
  (forall x, In x xs -> keeps P (f x)) -> keeps P (iter f xs).
Proof.
  induction xs as [|x xs IH]; simpl; intros H; [apply keeps_ret|].
  apply keeps_bind; [apply H; left; reflexivity|].
  intros _. apply IH. intros y Hy. apply H. right; exact Hy.
Qed.

(** Predicates that look only at the store, the caches or the id generator. *)
Hypothesis P_log : forall s l, P s -> P (set_log l s).
Hypothesis P_tick : forall s n, P s -> P (set_tick n s).
Hypothesis P_idn : forall s n, P s -> P (set_idn n s).

Lemma keeps_emit (e : Event) : keeps P (emit e).
Proof. apply keeps_modify. intros s H. apply P_log; exact H. Qed.

Lemma keeps_now : keeps P now.
Proof. intros s H. apply P_tick; exact H. Qed.

Lemma keeps_autoId : keeps P autoId.
Proof. intros s H. apply P_idn; exact H. Qed.
End Keeps.

Create HintDb keeps_db.
#[local] Hint Resolve keeps_ret keeps_get keeps_throw keeps_emit keeps_now keeps_autoId : keeps_db.

(** Split a computation into its primitive steps. *)
Ltac keeps_steps :=
  repeat (apply keeps_bind; [| intros ?]);
  try (match goal with
       | |- keeps _ (match ?x with _ => _ end) => destruct x
       end; keeps_steps).

(** Close [keeps P m] for a straight-line or branching primitive [m]. *)
Ltac keeps_prim unfolds :=
  let s := fresh "s" in let H := fresh "H" in
  intros s H; unfold unfolds; run_m;
  repeat match goal with
         | |- context [match ?x with _ => _ end] => destruct x; simpl
         end;
  try assumption.

(** ** Deleting a tag leaves the word cache alone *)

Lemma stripTagInWordbook_keeps_wordCache (u tag : string) wbe c :
  keeps (fun s => wordCache s = c) (stripTagInWordbook u tag wbe).
Proof.
  unfold stripTagInWordbook. apply keeps_bind.
  - keeps_prim queryWordsByPos.
  - intros snap. apply keeps_iter. intros e _. keeps_prim updateWordDoc.
Qed.

Lemma deletePartOfSpeechTag_keeps_wordCache (u tag : string) c :
  keeps (fun s => wordCache s = c) (deletePartOfSpeechTag u tag).
Proof.
  unfold deletePartOfSpeechTag. apply keeps_bind; [keeps_prim getWordbookDocs|].
  intros wbs. apply keeps_bind.
  - apply keeps_iter. intros wbe _. apply stripTagInWordbook_keeps_wordCache.
  - intros _. apply keeps_bind; [keeps_prim deleteTagDoc|].
    intros _. keeps_prim updateTagCache.
Qed.

(** C9: [deletePartOfSpeechTag] never writes the word cache, so a cached word
    list keeps the deleted tag in its [partOfSpeech] arrays while the store
    no longer has it. *)
Theorem deletePartOfSpeechTag_word_cache_untouched :
  (forall u tag s, wordCache (snd (deletePartOfSpeechTag u tag s)) = wordCache s) /\
  (let s' := snd (deletePartOfSpeechTag "u1" "t1" warmSt) in
   fst (deletePartOfSpeechTag "u1" "t1" warmSt) = Ok tt /\
   wordCache warmSt (makeCacheKey "u1" "wb1") = Some [sampleWord] /\
   wordCache s' (makeCacheKey "u1" "wb1") = Some [sampleWord] /\
   In "t1" (partOfSpeech (w_fields sampleWord)) /\
   map (fun e => partOfSpeech (d_fields (snd e))) (s_words (st_store s') "u1" "wb1") = [[]]).
Proof.
  split.
  - intros u tag s. exact (deletePartOfSpeechTag_keeps_wordCache u tag (wordCache s) s eq_refl).
  - repeat split; try reflexivity. simpl. left; reflexivity.
Qed.

(** ** Frame lemma for every operation

    A state predicate that ignores the log, the clock, the id counter, the
    caches, the word and tag collections, and that survives wordbook
    deletions and wordbook updates not resetting [trashed] to [false], is
    kept by every operation but [createWordbook]; with [addWordbookDoc]
    keeping it too, by every operation. *)

Section AllOps.
Variable P : St -> Prop.
Hypothesis P_log : forall s l, P s -> P (set_log l s).
Hypothesis P_tick : forall s n, P s -> P (set_tick n s).
Hypothesis P_idn : forall s n, P s -> P (set_idn n s).
Hypothesis P_wc : forall s c, P s -> P (set_wordCache c s).
Hypothesis P_tc : forall s c, P s -> P (set_posTagCache c s).
Hypothesis P_words : forall s u wb f, P s -> P (set_store (upd_words u wb f (st_store s)) s).
Hypothesis P_tags : forall s u f, P s -> P (set_store (upd_posTags u f (st_store s)) s).
Hypothesis P_wbdel : forall s u wb,
  P s -> P (set_store (upd_wordbooks u (coll_delete wb) (st_store s)) s).
Hypothesis P_wbupd : forall s u wb p, pw_trashed p <> Some false ->
  P s -> P (set_store (upd_wordbooks u (coll_update wb (patch_wordbook p)) (st_store s)) s).

Local Ltac ksolve :=
  cbv beta zeta;
  match goal with
  | |- keeps _ (bind _ _) => apply keeps_bind; [ksolve | intros; ksolve]
  | |- keeps _ (iter _ _) => apply keeps_iter; intros; ksolve
  | |- keeps _ (match ?x with _ => _ end) => destruct x; ksolve
  | |- keeps _ (ret _) => apply keeps_ret
  | |- keeps _ (stageImports _ _ _) => idtac
  | |- keeps _ get => apply keeps_get
  | |- keeps _ (throw _) => apply keeps_throw
  | |- keeps _ (emit _) => apply keeps_emit; exact P_log
  | |- keeps _ now => apply keeps_now; exact P_tick
  | |- keeps _ autoId => apply keeps_autoId; exact P_idn
  | |- keeps _ (modify_store (upd_words _ _ _)) =>
      apply keeps_modify; intros; apply P_words; assumption
  | |- keeps _ (modify_store (upd_posTags _ _)) =>
      apply keeps_modify; intros; apply P_tags; assumption
  | |- keeps _ (modify_store (upd_wordbooks _ (coll_delete _))) =>
      apply keeps_modify; intros; apply P_wbdel; assumption
  | |- keeps _ (modify_store (upd_wordbooks _ (coll_update _ (patch_wordbook _)))) =>
      apply keeps_modify; intros; apply P_wbupd; [discriminate | assumption]
  | |- keeps _ (modify (fun _ => set_wordCache _ _)) =>
      apply keeps_modify; intros; apply P_wc; assumption
  | |- keeps _ (modify (fun _ => set_posTagCache _ _)) =>
      apply keeps_modify; intros; apply P_tc; assumption
  | |- keeps _ _ =>
      progress unfold discard, getWordbooksByUserId, deleteWordbook, trashWordbook,
        getTrashedWordbooksByUserId, clearTrashedWordbooks, updateWordbookName,
        getWordbook, getWordsByWordbookId, createWord, updateWord, deleteWord,
        bulkImportWords, resetWordsProgress, bulkDeleteWords, getPartOfSpeechTags,
        createPartOfSpeechTag, updatePartOfSpeechTag, deletePartOfSpeechTag,
        stripTagInWordbook, updateWordCache, updateTagCache, getWordbookDocs,
        getWordbookDoc, updateWordbookDoc, deleteWordbookDoc, getWordDocs,
        queryWordsByPos, addWordDoc, updateWordDoc, deleteWordDoc, commitWordBatch,
        getTagDocs, addTagDoc, updateTagDoc, deleteTagDoc;
      ksolve
  end.

Lemma keeps_stageImports wb t data : keeps P (stageImports wb t data).
Proof. induction data; simpl; [apply keeps_ret|]. ksolve; exact IHdata. Qed.

Lemma keeps_run_op_not_create (o : Op) :
  (forall u n, o <> OpCreateWordbook u n) -> keeps P (run_op o).
Proof.
  intros Hne. destruct o; unfold run_op;
    try (exfalso; eapply Hne; reflexivity);
    ksolve; apply keeps_stageImports.
Qed.

Hypothesis P_add : forall u d, keeps P (addWordbookDoc u d).

Lemma keeps_createWordbook u n : keeps P (createWordbook u n).
Proof.
  unfold createWordbook. apply keeps_bind; [apply keeps_now; exact P_tick|]. intros t1.
  apply keeps_bind; [apply P_add|]. intros id.
  apply keeps_bind; [apply keeps_now; exact P_tick|]. intros t2. apply keeps_ret.
Qed.

Lemma keeps_run_op (o : Op) : keeps P (run_op o).
Proof.
  destruct o as [| u n | | | | | | | | | | | | | | | | |];
    try (apply keeps_run_op_not_create; discriminate).
  unfold run_op, discard. apply keeps_bind; [apply keeps_createWordbook|].
  intros _. apply keeps_ret.
Qed.

Lemma keeps_run_ops (os : list Op) : forall s, P s -> P (run_ops os s).
Proof.
  induction os as [|o os IH]; simpl; intros s H; [exact H|].
  apply IH. apply keeps_run_op. exact H.
Qed.
End AllOps.

(** ** Trashing is one-directional *)

(** Every stored document with id [X] in [u]'s wordbooks is trashed (or there is none). *)
Definition TrashedOrAbsent (u X : string) (s : St) : Prop :=
  forall d, In (X, d) (s_wordbooks (st_store s) u) -> truthy (trashed d) = true.

Definition PresentWb (u X : string) (s : St) : Prop :=
  exists d, In (X, d) (s_wordbooks (st_store s) u).

(** The id generator never produces [X]. *)
Definition AutoAvoids (X : string) (s : St) : Prop := forall n, st_autoId s n <> X.

Lemma In_coll_delete {D} (k : string) (e : string * D) (c : Coll D) :
  In e (coll_delete k c) -> In e c.
Proof. unfold coll_delete. rewrite filter_In. tauto. Qed.

Lemma In_coll_update {D} (k k' : string) (f : D -> D) (d : D) (c : Coll D) :
  In (k', d) (coll_update k f c) ->
  exists d0, In (k', d0) c /\ (if String.eqb k' k then d = f d0 else d = d0).
Proof.
  unfold coll_update. rewrite in_map_iff. intros [[k0 d0] [Heq Hin]]. simpl in Heq.
  exists d0. destruct (String.eqb_spec k0 k) as [->|Hne]; inversion Heq; subst.
  - rewrite String.eqb_refl. split; [exact Hin | reflexivity].
  - destruct (String.eqb_spec k' k); [congruence|]. split; [exact Hin | reflexivity].
Qed.

Lemma TOA_wbdel (u X : string) (s : St) (u' wb : string) :
  TrashedOrAbsent u X s ->
  TrashedOrAbsent u X (set_store (upd_wordbooks u' (coll_delete wb) (st_store s)) s).
Proof.
  intros H d Hin. simpl in Hin. destruct (String.eqb u u').
  - apply H. exact (In_coll_delete _ _ _ Hin).
  - apply H. exact Hin.
Qed.

Lemma TOA_wbupd (u X : string) (s : St) (u' wb : string) (p : WordbookPatch) :
  pw_trashed p <> Some false -> TrashedOrAbsent u X s ->
  TrashedOrAbsent u X
    (set_store (upd_wordbooks u' (coll_update wb (patch_wordbook p)) (st_store s)) s).
Proof.
  intros Hp H d Hin. simpl in Hin. destruct (String.eqb u u'); [|exact (H d Hin)].
  apply In_coll_update in Hin as [d0 [Hin0 Hd]].
  destruct (String.eqb X wb); subst d; [|exact (H d0 Hin0)].
  unfold patch_wordbook; simpl.
  destruct (pw_trashed p) as [[|]|]; [reflexivity | congruence | exact (H d0 Hin0)].
Qed.

Lemma TOA_keeps_not_create (u X : string) (o : Op) :
  (forall u' n, o <> OpCreateWordbook u' n) -> keeps (TrashedOrAbsent u X) (run_op o).
Proof.
  apply keeps_run_op_not_create; intros; try assumption.
  - apply TOA_wbdel; assumption.
  - apply TOA_wbupd; assumption.
Qed.

Lemma addWordbookDoc_keeps_avoiding (u X : string) (u' : string) (d : WordbookData) :
  keeps (fun s => TrashedOrAbsent u X s /\ AutoAvoids X s) (addWordbookDoc u' d).
Proof.
  intros s [H1 H2]. unfold addWordbookDoc. run_m.
  destruct (lookup _ _); simpl; [split; assumption|].
  split; [|exact H2]. intros d0 Hin. simpl in Hin.
  destruct (String.eqb u u'); [|exact (H1 d0 Hin)].
  apply in_app_or in Hin as [Hin|[Heq|[]]]; [exact (H1 d0 Hin)|].
  inversion Heq. exfalso. apply (H2 (st_idn s)). assumption.
Qed.

Lemma addWordbookDoc_keeps_present (u X : string) (u' : string) (d : WordbookData) :
  keeps (fun s => TrashedOrAbsent u X s /\ PresentWb u X s) (addWordbookDoc u' d).
Proof.
  intros s [H1 [d1 H2]]. unfold addWordbookDoc. run_m.
  destruct (lookup _ _) eqn:El; simpl; [split; [|exists d1]; assumption|].
  split.
  - intros d0 Hin. simpl in Hin.
    destruct (String.eqb_spec u u') as [<-|Hne]; [|exact (H1 d0 Hin)].
    apply in_app_or in Hin as [Hin|[Heq|[]]]; [exact (H1 d0 Hin)|].
    inversion Heq; subst. exfalso. exact (proj1 (lookup_None_iff _ _) El d1 H2).
  - exists d1. simpl. destruct (String.eqb u u'); [apply in_or_app; left|]; exact H2.
Qed.

Lemma avoiding_run_ops (u X : string) (os : list Op) (s : St) :
  TrashedOrAbsent u X s -> AutoAvoids X s -> TrashedOrAbsent u X (run_ops os s).
Proof.
  intros H1 H2.
  apply (keeps_run_ops (fun s => TrashedOrAbsent u X s /\ AutoAvoids X s));
    try (intros; assumption); try (split; assumption).
  - intros s0 u' wb [Ha Hb]. split; [apply TOA_wbdel; assumption | exact Hb].
  - intros s0 u' wb p Hp [Ha Hb]. split; [apply TOA_wbupd; assumption | exact Hb].
  - apply addWordbookDoc_keeps_avoiding.
Qed.

(** C6: the live listing is exactly the documents whose [trashed] flag is not
    set; [trashWordbook] sets [trashed = true] and [trashedAt] to the clock
    reading; afterwards no run of operations brings the wordbook back into
    the listing (as long as the id generator does not hand its id out again
    after a hard delete), and no single operation clears the flag of an
    existing trashed wordbook. *)
Theorem trash_is_one_way (u : string) :
  (forall s, fst (getWordbooksByUserId u s) =
     Ok (map toWordbook (filter (fun e => negb (truthy (trashed (snd e))))
                                (s_wordbooks (st_store s) u)))) /\
  (forall X s s1, trashWordbook u X s = (Ok tt, s1) ->
     (forall d, In (X, d) (s_wordbooks (st_store s1) u) ->
        trashed d = Some true /\ trashedAt d = Some (Some (st_clock s (st_tick s)))) /\
     (forall os l, AutoAvoids X s ->
        fst (getWordbooksByUserId u (run_ops os s1)) = Ok l -> ~ In X (map wb_id l))) /\
  (forall o X s, TrashedOrAbsent u X s -> PresentWb u X s ->
     TrashedOrAbsent u X (snd (run_op o s))).
Proof.
  split; [|split].
  - intros s. reflexivity.
  - intros X s s1 H.
    set (pt := {| pw_name := None; pw_trashed := Some true;
                  pw_trashedAt := Some (Some (st_clock s (st_tick s))) |}).
    assert (Hs1 : s_wordbooks (st_store s1) u =
                    coll_update X (patch_wordbook pt) (s_wordbooks (st_store s) u) /\
                  st_autoId s1 = st_autoId s).
    { unfold trashWordbook, updateWordbookDoc in H. run_m.
      destruct (lookup X (s_wordbooks (st_store s) u)); [|discriminate].
      inversion H; subst s1; clear H. simpl. rewrite String.eqb_refl. split; reflexivity. }
    destruct Hs1 as [Hwb Hid].
    assert (Hset : forall d, In (X, d) (s_wordbooks (st_store s1) u) ->
               trashed d = Some true /\ trashedAt d = Some (Some (st_clock s (st_tick s)))).
    { intros d Hin. rewrite Hwb in Hin.
      apply In_coll_update in Hin as [d0 [_ Hd]]. rewrite String.eqb_refl in Hd.
      subst d. split; reflexivity. }
    split; [exact Hset|].
    intros os l Hav Hl.
    assert (Htoa : TrashedOrAbsent u X (run_ops os s1)).
    { apply avoiding_run_ops.
      - intros d Hin. destruct (Hset d Hin) as [-> _]. reflexivity.
      - intros n. rewrite Hid. apply Hav. }
    revert Hl. unfold getWordbooksByUserId, getWordbookDocs. run_m. intros Hl.
    inversion Hl; subst l; clear Hl.
    rewrite map_map, in_map_iff. intros [[k d] [Hk Hin]]. simpl in Hk. subst k.
    apply filter_In in Hin as [Hin Hnt]. simpl in Hnt.
    rewrite (Htoa d Hin) in Hnt. discriminate.
  - intros o X s H1 H2. destruct o as [| u' n | | | | | | | | | | | | | | | | |];
      try (apply (TOA_keeps_not_create u X); [discriminate | exact H1]).
    unfold run_op, discard.
    assert (Hc : keeps (fun s => TrashedOrAbsent u X s /\ PresentWb u X s)
                       (_ <- createWordbook u' n ;; ret tt)).
    { apply keeps_bind; [|intros; apply keeps_ret].
      apply keeps_createWordbook; [intros; assumption|].
      apply addWordbookDoc_keeps_present. }
    exact (proj1 (Hc s (conj H1 H2))).
Qed.

Lemma trash_is_one_way_witness :
  let s1 := snd (trashWordbook "u1" "wb1" (initSt sampleStore)) in
  let os := [OpCreateWordbook "u1" "HSK 2"; OpUpdateWordbookName "u1" "wb1" "HSK 1b";
             OpDeleteWordbook "u1" "wb1"] in
  exists l, fst (getWordbooksByUserId "u1" (run_ops os s1)) = Ok l /\ ~ In "wb1" (map wb_id l).
Proof.
  intros s1 os. destruct (trash_is_one_way "u1") as [_ [H2 _]].
  eexists. split; [reflexivity|].
  apply (proj2 (H2 "wb1" (initSt sampleStore) s1 eq_refl) os); [|reflexivity].
  intros n Hn. simpl in Hn. inversion Hn.
Defined.

(** ** Deleting a tag: the stored words and the tag listing *)

Definition TagFree (u tag wb : string) (s : St) : Prop :=
  forall e, In e (s_words (st_store s) u wb) -> ~ In tag (partOfSpeech (d_fields (snd e))).

(** What a tag strip in wordbook [wb] may change: only the words of [u]/[wb]. *)
Definition StripFrame (u wb : string) (s x : St) : Prop :=
  (forall u' wb', u' <> u \/ wb' <> wb ->
     s_words (st_store x) u' wb' = s_words (st_store s) u' wb') /\
  s_wordbooks (st_store x) = s_wordbooks (st_store s) /\
  s_posTags (st_store x) = s_posTags (st_store s) /\
  posTagCache x = posTagCache s.

(** An invariant of the remaining work list, carried through a successful [iter]. *)
Lemma iter_ok_inv {A} (f : A -> M unit) (I : list A -> St -> Prop) :
  (forall x xs s s', I (x :: xs) s -> f x s = (Ok tt, s') -> I xs s') ->
  forall xs s s', I xs s -> iter f xs s = (Ok tt, s') -> I [] s'.
Proof.
  intros Hstep xs. induction xs as [|x xs IH]; intros s s' HI H.
  - cbv [iter ret] in H. inversion H; subst. exact HI.
  - simpl in H. unfold bind in H.
    destruct (f x s) as [[[]|e] s1] eqn:Ef; [|discriminate].
    exact (IH s1 s' (Hstep x xs s s1 HI Ef) H).
Qed.

Lemma getWordbookDocs_eq (u : string) (s : St) :
  getWordbookDocs u s =
  (Ok (s_wordbooks (st_store s) u), set_log (st_log s ++ [EvGetDocs (wordbooksPath u)]) s).
Proof. reflexivity. Qed.

Lemma queryWordsByPos_eq (u wb tag : string) (s : St) :
  queryWordsByPos u wb tag s =
  (Ok (filter (fun e => existsb (String.eqb tag) (partOfSpeech (d_fields (snd e))))
              (s_words (st_store s) u wb)),
   set_log (st_log s ++ [EvQuery (wordsPath u wb) "partOfSpeech" "array-contains" tag]) s).
Proof. reflexivity. Qed.

Lemma updateWordDoc_ok (u wb id : string) (p : WordPatch) (s s' : St) :
  updateWordDoc u wb id p s = (Ok tt, s') ->
  st_store s' = upd_words u wb (coll_update id (patch_data p)) (st_store s) /\
  posTagCache s' = posTagCache s.
Proof.
  unfold updateWordDoc. run_m.
  destruct (lookup id _); intros H; inversion H; subst; split; reflexivity.
Qed.

(** One wordbook: every word matched by the query is rewritten without the
    tag, and a word the query missed had no tag to begin with. *)
Lemma stripTagInWordbook_ok (u tag : string) wbe (s s' : St) :
  stripTagInWordbook u tag wbe s = (Ok tt, s') ->
  TagFree u tag (fst wbe) s' /\ StripFrame u (fst wbe) s s'.
Proof.
  destruct wbe as [wb wd]. unfold stripTagInWordbook. cbn [fst]. intros H.
  rewrite (bind_ok _ _ _ _ _ (queryWordsByPos_eq u wb tag s)) in H. cbv beta in H.
  enough (Hend : (forall e, In e (s_words (st_store s') u wb) ->
                    ~ In tag (partOfSpeech (d_fields (snd e))) \/
                    exists e' : string * WordData, In e' [] /\ fst e' = fst e) /\
                  StripFrame u wb s s').
  { destruct Hend as [Hf Hfr]. split; [|exact Hfr].
    intros e Hin. destruct (Hf e Hin) as [H1|[e' [[] _]]]. exact H1. }
  revert H.
  eapply (iter_ok_inv _
            (fun rest x =>
               (forall e, In e (s_words (st_store x) u wb) ->
                  ~ In tag (partOfSpeech (d_fields (snd e))) \/
                  exists e', In e' rest /\ fst e' = fst e) /\ StripFrame u wb s x)).
  - intros e1 rest x x' [Hi [Hw [Hb [Ht Hc]]]] Hu. cbv beta zeta in Hu.
    apply updateWordDoc_ok in Hu as [Hst Hc'].
    split; [|split; [|split; [|split]]].
    + intros [k d] Hin. rewrite Hst, upd_words_same in Hin.
      apply In_coll_update in Hin as [d0 [Hin0 Hd]].
      destruct (String.eqb_spec k (fst e1)) as [Hk|Hk].
      * left. rewrite Hd. cbn. intros Hin'. apply filter_In in Hin' as [_ Hn].
        rewrite String.eqb_refl in Hn. discriminate.
      * subst d. destruct (Hi (k, d0) Hin0) as [Hn|[e' [Hin' He']]]; [left; exact Hn|].
        right. destruct Hin' as [<-|Hin']; [simpl in He'; congruence|].
        exists e'. split; assumption.
    + intros u' wb' Hne. rewrite Hst, upd_words_other by exact Hne. apply Hw; exact Hne.
    + rewrite Hst. exact Hb.
    + rewrite Hst. exact Ht.
    + rewrite Hc'. exact Hc.
  - split; [|repeat split].
    intros e Hin.
    destruct (existsb (String.eqb tag) (partOfSpeech (d_fields (snd e)))) eqn:Eh.
    + right. exists e. split; [|reflexivity]. apply filter_In. split; [exact Hin | exact Eh].
    + left. intros Hin'.
      assert (Ht : existsb (String.eqb tag) (partOfSpeech (d_fields (snd e))) = true).
      { apply existsb_exists. exists tag. split; [exact Hin' | apply String.eqb_refl]. }
      congruence.
Qed.

(** The whole deletion: its effect on the store and on the tag cache. *)
Lemma deletePartOfSpeechTag_ok (u tag : string) (s s' : St) :
  deletePartOfSpeechTag u tag s = (Ok tt, s') ->
  (forall wb, In wb (map fst (s_wordbooks (st_store s) u)) -> TagFree u tag wb s') /\
  s_wordbooks (st_store s') = s_wordbooks (st_store s) /\
  s_posTags (st_store s') u = coll_delete tag (s_posTags (st_store s) u) /\
  posTagCache s' u = match posTagCache s u with
                     | Some ts => Some (filter (fun t => negb (String.eqb (t_id t) tag)) ts)
                     | None => None
                     end.
Proof.
  unfold deletePartOfSpeechTag. intros H.
  rewrite (bind_ok _ _ _ _ _ (getWordbookDocs_eq u s)) in H. cbv beta in H.
  set (W := s_wordbooks (st_store s) u) in H.
  set (s0 := set_log _ s) in H.
  unfold bind at 1 in H.
  destruct (iter (stripTagInWordbook u tag) W s0) as [[[]|e] s1] eqn:Ei; [|discriminate].
  assert (Hend : (forall wb, In wb (map fst W) -> TagFree u tag wb s1 \/
                             In wb (map fst (@nil (string * WordbookData)))) /\
                 s_wordbooks (st_store s1) = s_wordbooks (st_store s) /\
                 s_posTags (st_store s1) = s_posTags (st_store s) /\
                 posTagCache s1 = posTagCache s).
  { revert Ei.
    eapply (iter_ok_inv _
              (fun rest x =>
                 (forall wb, In wb (map fst W) -> TagFree u tag wb x \/ In wb (map fst rest)) /\
                 s_wordbooks (st_store x) = s_wordbooks (st_store s) /\
                 s_posTags (st_store x) = s_posTags (st_store s) /\
                 posTagCache x = posTagCache s)).
    - intros [wb wd] rest x x' [Hj [Hb [Ht Hc]]] Hs.
      apply stripTagInWordbook_ok in Hs as [Hfree [Hw [Hb' [Ht' Hc']]]]. cbn [fst] in *.
      split; [|split; [|split]]; [| congruence | congruence | congruence].
      intros wb' Hin. destruct (String.eqb_spec wb' wb) as [->|Hne]; [left; exact Hfree|].
      destruct (Hj wb' Hin) as [Hf|Hr].
      + left. unfold TagFree. rewrite Hw by (right; exact Hne). exact Hf.
      + right. destruct Hr as [Heq|Hr]; [simpl in Heq; congruence | exact Hr].
    - split; [intros wb Hin; right; exact Hin | repeat split]. }
  destruct Hend as [Hf [Hb [Ht Hc]]].
  cbv [bind deleteTagDoc updateTagCache emit modify modify_store get ret
       set_store set_log set_posTagCache] in H. simpl in H.
  destruct (posTagCache s1 u) as [l|] eqn:Ec; inversion H; subst; clear H;
    rewrite Hc in Ec.
  - split; [|split; [|split]].
    + intros wb Hin. destruct (Hf wb Hin) as [Hw|[]]. exact Hw.
    + exact Hb.
    + simpl. rewrite String.eqb_refl, Ht. reflexivity.
    + simpl. rewrite cache_put_same, Ec. reflexivity.
  - split; [|split; [|split]].
    + intros wb Hin. destruct (Hf wb Hin) as [Hw|[]]. exact Hw.
    + exact Hb.
    + simpl. rewrite String.eqb_refl, Ht. reflexivity.
    + simpl. rewrite Hc, Ec. reflexivity.
Qed.

(** C2 (counterexample): after [updatePartOfSpeechTag("u1", "t2", { id: "t1" })]
    the document "t2" stores a field [id = "t1"], which the listing spreads over
    the document id. Deleting tag "t1" succeeds, yet with a cold tag cache the
    next [getPartOfSpeechTags("u1")] still lists a tag with id "t1". *)
Lemma deletePartOfSpeechTag_id_field_still_listed :
  fst (deletePartOfSpeechTag "u1" "t1"
         (snd (updatePartOfSpeechTag "u1" "t2" idPatch (initSt twoTagStore)))) = Ok tt /\
  exists ts, fst (tagIdFieldScenario (initSt twoTagStore)) = Ok ts /\ In "t1" (map t_id ts).
Proof.
  split; [reflexivity|]. eexists. split; [reflexivity|]. simpl. left; reflexivity.
Qed.

(** C2 (amended): once [deletePartOfSpeechTag(u, tag)] has succeeded, no word
    stored in any wordbook of [u] has [tag] in its [partOfSpeech] list, and
    [getPartOfSpeechTags(u)] succeeds with a list in which [tag] is an id
    exactly when the tag cache of [u] was cold and another tag document of [u]
    stores an [id] field equal to [tag]. *)
Theorem deletePartOfSpeechTag_strips_tag (u tag : string) (s s' : St)
  (H : deletePartOfSpeechTag u tag s = (Ok tt, s')) :
  (forall wb e, In wb (map fst (s_wordbooks (st_store s') u)) ->
     In e (s_words (st_store s') u wb) -> ~ In tag (partOfSpeech (d_fields (snd e)))) /\
  exists ts, fst (getPartOfSpeechTags u s') = Ok ts /\
    (In tag (map t_id ts) <->
       posTagCache s u = None /\
       exists k td, In (k, td) (s_posTags (st_store s) u) /\ k <> tag /\ td_id td = Some tag).
Proof.
  destruct (deletePartOfSpeechTag_ok u tag s s' H) as [Hfree [Hb [Ht Hc]]].
  split.
  - intros wb e Hwb. rewrite Hb in Hwb. exact (Hfree wb Hwb e).
  - unfold getPartOfSpeechTags, getTagDocs. cbv [bind get ret emit modify].
    rewrite Hc. destruct (posTagCache s u) as [ts|] eqn:E.
    + exists (filter (fun t => negb (String.eqb (t_id t) tag)) ts). split; [reflexivity|].
      split.
      * intros Hin. apply in_map_iff in Hin as [t [Ht1 Hin]].
        apply filter_In in Hin as [_ Hn]. rewrite Ht1, String.eqb_refl in Hn. discriminate.
      * intros [Hn _]. discriminate.
    + exists (map toTag (coll_delete tag (s_posTags (st_store s) u))).
      split; [simpl; rewrite Ht; reflexivity|]. split.
      * intros Hin. split; [reflexivity|].
        apply in_map_iff in Hin as [t [Ht1 Hin]].
        apply in_map_iff in Hin as [[k td] [<- Hin]].
        apply filter_In in Hin as [Hin Hk]. simpl in Hk.
        exists k, td. destruct (String.eqb_spec k tag) as [Heq|Hne]; [discriminate|].
        split; [exact Hin | split; [exact Hne|]].
        unfold toTag, ov in Ht1. simpl in Ht1.
        destruct (td_id td); [congruence | contradiction].
      * intros [_ [k [td [Hin [Hk Hid]]]]]. apply in_map_iff.
        exists (toTag (k, td)). split; [unfold toTag; simpl; rewrite Hid; reflexivity|].
        apply in_map. apply filter_In. split; [exact Hin|]. simpl.
        destruct (String.eqb_spec k tag); [contradiction | reflexivity].
Qed.

Lemma deletePartOfSpeechTag_strips_tag_witness :
  let s := initSt twoTagStore in
  let s' := snd (deletePartOfSpeechTag "u1" "t1" s) in
  (forall e, In e (s_words (st_store s') "u1" "wb1") ->
     ~ In "t1" (partOfSpeech (d_fields (snd e)))) /\
  exists ts, fst (getPartOfSpeechTags "u1" s') = Ok ts /\ ~ In "t1" (map t_id ts).
Proof.
  intros s s'.
  destruct (deletePartOfSpeechTag_strips_tag "u1" "t1" s s' eq_refl) as [Hw [ts [Hts Hiff]]].
  split.
  - intros e. apply (Hw "wb1" e). simpl. left; reflexivity.
  - exists ts. split; [exact Hts|]. intros Hin.
    apply Hiff in Hin as [_ [k [td [Hin [_ Hid]]]]].
    simpl in Hin. destruct Hin as [E|[E|[]]]; inversion E; subst; discriminate Hid.
Defined.

(** * Further properties of the layer *)

(** ** Word cache coherence

    A cache entry is cold, or lists the stored documents as
    [getWordsByWordbookId] would read them. *)

Definition WordCacheCoherent (u wb : string) (s : St) : Prop :=
  wordCache s (makeCacheKey u wb) = None \/
  wordCache s (makeCacheKey u wb) = Some (map toWord (s_words (st_store s) u wb)).

(** No stored word carries an [id] field other than its document id. *)
Definition IdsMatchKeys (c : Coll WordData) : Prop :=
  forall k d, In (k, d) c -> d_id d = None \/ d_id d = Some k.

Lemma toWord_id (k : string) (d : WordData) :
  d_id d = None \/ d_id d = Some k -> w_id (toWord (k, d)) = k.
Proof. intros [H|H]; unfold toWord, ov; simpl; rewrite H; reflexivity. Qed.

Lemma IdsMatchKeys_tail k d c : IdsMatchKeys ((k, d) :: c) -> IdsMatchKeys c.
Proof. intros H k' d' Hin. apply H. right; exact Hin. Qed.

Lemma IdsMatchKeys_filter (f : string * WordData -> bool) c :
  IdsMatchKeys c -> IdsMatchKeys (filter f c).
Proof. intros H k d Hin. apply filter_In in Hin as [Hin _]. exact (H k d Hin). Qed.

Lemma IdsMatchKeys_update id p c :
  p_id p = None -> IdsMatchKeys c -> IdsMatchKeys (coll_update id (patch_data p) c).
Proof.
  intros Hp Hc k d Hin. apply In_coll_update in Hin as [d0 [Hin0 Hd]].
  destruct (String.eqb k id); subst; [simpl; rewrite Hp|]; exact (Hc k d0 Hin0).
Qed.

Lemma map_toWord_filter (g : string -> bool) (c : Coll WordData) :
  IdsMatchKeys c ->
  map toWord (filter (fun e => g (fst e)) c) = filter (fun w => g (w_id w)) (map toWord c).
Proof.
  induction c as [|[k d] c IH]; intros Hc; [reflexivity|].
  cbn -[toWord]. rewrite (toWord_id k d (Hc k d (or_introl eq_refl))).
  destruct (g k); cbn [map]; rewrite (IH (IdsMatchKeys_tail _ _ _ Hc)); reflexivity.
Qed.

Lemma map_toWord_update (id : string) (p : WordPatch) (c : Coll WordData) :
  IdsMatchKeys c -> p_id p = None ->
  map toWord (coll_update id (patch_data p) c) =
  map (fun w => if String.eqb (w_id w) id then patch_word p w else w) (map toWord c).
Proof.
  intros Hc Hp. unfold coll_update. rewrite !map_map. apply map_ext_in.
  intros [k d] Hin. cbn -[toWord]. rewrite (toWord_id k d (Hc k d Hin)).
  destruct (String.eqb k id); [|reflexivity].
  unfold toWord, patch_word, patch_data. simpl. rewrite Hp. reflexivity.
Qed.

Lemma updateWordDoc_cases u wb id p s :
  updateWordDoc u wb id p s =
  match lookup id (s_words (st_store s) u wb) with
  | None => (Err NotFound, set_log (st_log s ++ [EvUpdateDoc (wordPath u wb id)]) s)
  | Some _ => (Ok tt, set_store (upd_words u wb (coll_update id (patch_data p)) (st_store s))
                        (set_log (st_log s ++ [EvUpdateDoc (wordPath u wb id)]) s))
  end.
Proof. unfold updateWordDoc. run_m. destruct (lookup id _); reflexivity. Qed.

Lemma commitWordBatch_cases u wb ws s :
  commitWordBatch u wb ws s =
  match apply_writes ws (s_words (st_store s) u wb) with
  | None => (Err NotFound, set_log (st_log s ++ [EvCommit (wordsPath u wb) ws]) s)
  | Some c => (Ok tt, set_store (upd_words u wb (fun _ => c) (st_store s))
                        (set_log (st_log s ++ [EvCommit (wordsPath u wb) ws]) s))
  end.
Proof. unfold commitWordBatch. run_m. destruct (apply_writes _ _); reflexivity. Qed.

(** A cache update [f] that does to the cached list what the store write did
    to the documents keeps the entry coherent. *)
Lemma coherent_after_cache_update u wb f (s : St) (c : Coll WordData) r s' :
  (wordCache s (makeCacheKey u wb) = None \/
   wordCache s (makeCacheKey u wb) = Some (map toWord c)) ->
  f (map toWord c) = map toWord (s_words (st_store s) u wb) ->
  updateWordCache (makeCacheKey u wb) f s = (r, s') ->
  r = Ok tt /\ WordCacheCoherent u wb s' /\ st_store s' = st_store s.
Proof.
  intros [E|E] Hf H; unfold updateWordCache in H; run_m; rewrite E in H;
    inversion H; subst; split; try reflexivity; split; try reflexivity;
    unfold WordCacheCoherent; simpl.
  - left. exact E.
  - right. rewrite cache_put_same, Hf. reflexivity.
Qed.

Lemma apply_writes_deletes (ids : list string) (c : Coll WordData) :
  apply_writes (map WDelete ids) c =
  Some (filter (fun e => negb (existsb (String.eqb (fst e)) ids)) c).
Proof.
  revert c. induction ids as [|id ids IH]; intros c; simpl.
  - f_equal. symmetry. apply filter_true.
  - rewrite IH. f_equal. unfold coll_delete. rewrite filter_twice.
    apply filter_ext. intros e. destruct (String.eqb (fst e) id); reflexivity.
Qed.

Lemma map_toWord_reset (ids : list string) (c : Coll WordData) :
  IdsMatchKeys c ->
  map toWord (map (reset_if ids) c) =
  map (fun w => if existsb (String.eqb (w_id w)) ids then resetWord w else w) (map toWord c).
Proof.
  intros Hc. rewrite !map_map. apply map_ext_in.
  intros [k d] Hin. unfold reset_if. cbn -[toWord]. rewrite (toWord_id k d (Hc k d Hin)).
  destruct (existsb (String.eqb k) ids); reflexivity.
Qed.

Lemma IdsMatchKeys_reset ids c : IdsMatchKeys c -> IdsMatchKeys (map (reset_if ids) c).
Proof.
  intros Hc k d Hin. apply in_map_iff in Hin as [[k0 d0] [He Hin]].
  unfold reset_if in He. simpl in He.
  destruct (existsb (String.eqb k0) ids); injection He as <- <-; exact (Hc k0 d0 Hin).
Qed.


Lemma w_ids_keys (c : Coll WordData) : IdsMatchKeys c -> map w_id (map toWord c) = map fst c.
Proof.
  intros Hc. rewrite map_map. apply map_ext_in. intros [k d] Hin. exact (toWord_id k d (Hc k d Hin)).
Qed.

Lemma lookup_None_keys {D} (k : string) (c : Coll D) : lookup k c = None <-> ~ In k (map fst c).
Proof.
  induction c as [|[k' d'] c IH]; simpl; [tauto|].
  destruct (String.eqb_spec k k') as [->|Hne].
  - split; [discriminate | intros H; exfalso; apply H; left; reflexivity].
  - rewrite IH. split; [intros H [E|E]; [congruence | exact (H E)] | intros H E; apply H; right; exact E].
Qed.

Lemma coll_update_keys {D} (k : string) (f : D -> D) (c : Coll D) :
  map fst (coll_update k f c) = map fst c.
Proof.
  unfold coll_update. rewrite map_map. apply map_ext. intros [k' d]. simpl.
  destruct (String.eqb k' k); reflexivity.
Qed.

(** A batch of updates fails exactly when one of its documents is missing. *)
Lemma apply_writes_updates_None (p : WordPatch) (ids : list string) (c : Coll WordData) :
  apply_writes (map (fun id => WUpdate id p) ids) c = None <->
  exists id, In id ids /\ lookup id c = None.
Proof.
  revert c. induction ids as [|id ids IH]; intros c; simpl.
  - split; [discriminate | intros [id [[] _]]].
  - destruct (lookup id c) as [d|] eqn:El.
    + rewrite IH. split.
      * intros [id' [Hin Hl]]. exists id'. split; [right; exact Hin|].
        apply lookup_None_keys. rewrite <- (coll_update_keys id (patch_data p)).
        apply lookup_None_keys. exact Hl.
      * intros [id' [[<-|Hin] Hl]]; [congruence|]. exists id'. split; [exact Hin|].
        apply lookup_None_keys. rewrite coll_update_keys. apply lookup_None_keys. exact Hl.
    + split; [intros _; exists id; split; [left; reflexivity | exact El] | reflexivity].
Qed.

(** [updateWord] keeps a coherent word cache entry coherent, provided the
    stored words carry no foreign [id] field and the patch has no [id] (the
    edit form of the word list sends none). A failed update changes nothing. *)
Theorem updateWord_keeps_cache_coherent (u wb id : string) (p : WordPatch) (s : St) r s' :
  IdsMatchKeys (s_words (st_store s) u wb) -> p_id p = None ->
  WordCacheCoherent u wb s ->
  updateWord u wb id p s = (r, s') ->
  WordCacheCoherent u wb s' /\ IdsMatchKeys (s_words (st_store s') u wb).
Proof.
  intros Hc Hp Hcoh H. unfold updateWord, bind in H. rewrite updateWordDoc_cases in H.
  destruct (lookup id (s_words (st_store s) u wb)) eqn:El; cbv beta iota in H.
  - eapply coherent_after_cache_update with (c := s_words (st_store s) u wb) in H;
      [destruct H as [_ [Hcoh' Hst]]; split; [exact Hcoh'|] | exact Hcoh | ].
    + rewrite Hst. cbn [st_store set_store]. rewrite upd_words_same.
      apply IdsMatchKeys_update; assumption.
    + cbn [st_store set_store]. rewrite upd_words_same. symmetry.
      apply map_toWord_update; assumption.
  - inversion H; subst. split; [exact Hcoh | exact Hc].
Qed.

Lemma updateWord_keeps_cache_coherent_witness :
  let s := warmSt in
  let p := {| p_id := None; p_word := Some "zai jian"; p_pinyin := None; p_favorite := None;
              p_translation := None; p_partOfSpeech := None; p_exampleSentence := None;
              p_exampleTranslation := None; p_relatedWords := None;
              p_usageFrequency := None; p_mastery := None; p_note := None;
              p_wordbookId := None; p_createdAt := None; p_reviewDate := None;
              p_studyCount := None |} in
  WordCacheCoherent "u1" "wb1" (snd (updateWord "u1" "wb1" "w1" p s)).
Proof.
  intros s p.
  refine (proj1 (updateWord_keeps_cache_coherent "u1" "wb1" "w1" p s _ _ _ _ _ eq_refl)).
  - intros k d [E|[]]. inversion E; subst. left; reflexivity.
  - reflexivity.
  - right. reflexivity.
Defined.

(** [deleteWord] keeps a coherent word cache entry coherent; afterwards no
    stored document has the deleted id, nor does any word of the cache entry. *)
Theorem deleteWord_keeps_cache_coherent (u wb id : string) (s : St) r s' :
  IdsMatchKeys (s_words (st_store s) u wb) -> WordCacheCoherent u wb s ->
  deleteWord u wb id s = (r, s') ->
  WordCacheCoherent u wb s' /\ IdsMatchKeys (s_words (st_store s') u wb) /\
  (forall d, ~ In (id, d) (s_words (st_store s') u wb)) /\
  (forall ws, wordCache s' (makeCacheKey u wb) = Some ws -> ~ In id (map w_id ws)).
Proof.
  intros Hc Hcoh H. unfold deleteWord, bind in H. rewrite deleteWordDoc_eq in H.
  cbv beta iota in H.
  eapply coherent_after_cache_update with (c := s_words (st_store s) u wb) in H;
    [destruct H as [_ [Hcoh' Hst]] | exact Hcoh | ].
  - assert (Hc' : IdsMatchKeys (s_words (st_store s') u wb)).
    { rewrite Hst. cbn [st_store set_store]. rewrite upd_words_same.
      unfold coll_delete. apply IdsMatchKeys_filter. exact Hc. }
    assert (Hk : forall d, ~ In (id, d) (s_words (st_store s') u wb)).
    { intros d Hin. rewrite Hst in Hin. cbn [st_store set_store] in Hin.
      rewrite upd_words_same in Hin. unfold coll_delete in Hin.
      apply filter_In in Hin as [_ Hn]. simpl in Hn. rewrite String.eqb_refl in Hn.
      discriminate. }
    split; [exact Hcoh'|]. split; [exact Hc'|]. split; [exact Hk|].
    intros ws Hws. destruct Hcoh' as [E|E]; rewrite E in Hws; [discriminate|].
    injection Hws as <-. rewrite (w_ids_keys _ Hc'). intros Hin.
    apply in_map_iff in Hin as [[k d] [Hkd Hin]]. simpl in Hkd. subst k. exact (Hk d Hin).
  - cbn [st_store set_store]. rewrite upd_words_same. unfold coll_delete. symmetry.
    apply (map_toWord_filter (fun k => negb (String.eqb k id))). exact Hc.
Qed.

Lemma deleteWord_keeps_cache_coherent_witness :
  wordCache (snd (deleteWord "u1" "wb1" "w1" warmSt)) (makeCacheKey "u1" "wb1") = Some [] /\
  WordCacheCoherent "u1" "wb1" (snd (deleteWord "u1" "wb1" "w1" warmSt)).
Proof.
  split; [reflexivity|].
  refine (proj1 (deleteWord_keeps_cache_coherent "u1" "wb1" "w1" warmSt _ _ _ _ eq_refl)).
  - intros k d [E|[]]. inversion E; subst. left; reflexivity.
  - right. reflexivity.
Defined.

(** [bulkDeleteWords] never fails, removes every listed document from the
    store, and keeps a coherent word cache entry coherent. *)
Theorem bulkDeleteWords_keeps_cache_coherent (u wb : string) (ids : list string) (s : St) r s' :
  IdsMatchKeys (s_words (st_store s) u wb) -> WordCacheCoherent u wb s ->
  bulkDeleteWords u wb ids s = (r, s') ->
  r = Ok tt /\ WordCacheCoherent u wb s' /\ IdsMatchKeys (s_words (st_store s') u wb) /\
  s_words (st_store s') u wb =
    filter (fun e => negb (existsb (String.eqb (fst e)) ids)) (s_words (st_store s) u wb).
Proof.
  intros Hc Hcoh H. unfold bulkDeleteWords, bind in H.
  rewrite commitWordBatch_cases, apply_writes_deletes in H. cbv beta iota in H.
  eapply coherent_after_cache_update with (c := s_words (st_store s) u wb) in H;
    [destruct H as [Hr [Hcoh' Hst]] | exact Hcoh | ].
  - rewrite Hst. cbn [st_store set_store]. rewrite upd_words_same.
    split; [exact Hr|]. split; [exact Hcoh'|]. split; [|reflexivity].
    apply IdsMatchKeys_filter. exact Hc.
  - cbn [st_store set_store]. rewrite upd_words_same. symmetry.
    apply (map_toWord_filter (fun k => negb (existsb (String.eqb k) ids))). exact Hc.
Qed.

Lemma bulkDeleteWords_keeps_cache_coherent_witness :
  s_words (st_store (snd (bulkDeleteWords "u1" "wb1" ["w1"; "nope"] warmSt))) "u1" "wb1" = [] /\
  WordCacheCoherent "u1" "wb1" (snd (bulkDeleteWords "u1" "wb1" ["w1"; "nope"] warmSt)).
Proof.
  split; [reflexivity|].
  refine (proj1 (proj2 (bulkDeleteWords_keeps_cache_coherent "u1" "wb1" ["w1"; "nope"]
                          warmSt _ _ _ _ eq_refl))).
  - intros k d [E|[]]. inversion E; subst. left; reflexivity.
  - right. reflexivity.
Defined.

(** [resetWordsProgress] keeps a coherent word cache entry coherent. *)
Theorem resetWordsProgress_keeps_cache_coherent (u wb : string) (ids : list string) (s : St) r s' :
  IdsMatchKeys (s_words (st_store s) u wb) -> WordCacheCoherent u wb s ->
  resetWordsProgress u wb ids s = (r, s') ->
  WordCacheCoherent u wb s' /\ IdsMatchKeys (s_words (st_store s') u wb).
Proof.
  intros Hc Hcoh H. unfold resetWordsProgress, bind in H. rewrite commitWordBatch_cases in H.
  destruct (apply_writes _ _) as [c|] eqn:Ea; cbv beta iota in H.
  - apply apply_resets in Ea. subst c.
    eapply coherent_after_cache_update with (c := s_words (st_store s) u wb) in H;
      [destruct H as [_ [Hcoh' Hst]] | exact Hcoh | ].
    + rewrite Hst. cbn [st_store set_store]. rewrite upd_words_same.
      split; [exact Hcoh'|]. apply IdsMatchKeys_reset. exact Hc.
    + cbn [st_store set_store]. rewrite upd_words_same. symmetry.
      apply map_toWord_reset. exact Hc.
  - inversion H; subst. split; [exact Hcoh | exact Hc].
Qed.

Lemma resetWordsProgress_keeps_cache_coherent_witness :
  WordCacheCoherent "u1" "wb1" (snd (resetWordsProgress "u1" "wb1" ["w1"] warmSt)).
Proof.
  refine (proj1 (resetWordsProgress_keeps_cache_coherent "u1" "wb1" ["w1"] warmSt _ _ _ _ eq_refl)).
  - intros k d [E|[]]. inversion E; subst. left; reflexivity.
  - right. reflexivity.
Defined.

(** [resetWordsProgress] is all or nothing: it fails with [NotFound] exactly
    when one of the ids has no stored document, and then neither the store
    nor the word cache changes. *)
Theorem resetWordsProgress_all_or_nothing (u wb : string) (ids : list string) (s : St) r s' :
  resetWordsProgress u wb ids s = (r, s') ->
  (r = Ok tt <-> forall id, In id ids -> lookup id (s_words (st_store s) u wb) <> None) /\
  (r <> Ok tt ->
   r = Err NotFound /\ st_store s' = st_store s /\ wordCache s' = wordCache s).
Proof.
  intros H. unfold resetWordsProgress, bind in H. rewrite commitWordBatch_cases in H.
  destruct (apply_writes _ _) as [c|] eqn:Ea; cbv beta iota in H.
  - unfold updateWordCache in H. run_m.
    destruct (wordCache s (makeCacheKey u wb)); inversion H; subst;
      (split; [split; [intros _ id Hin Hl | reflexivity] | intros Hn; exfalso; apply Hn; reflexivity]);
      assert (Hx : apply_writes (map (fun id => WUpdate id reset_patch) ids)
                     (s_words (st_store s) u wb) = None)
        by (apply apply_writes_updates_None; exists id; split; assumption);
      congruence.
  - inversion H; subst. split; [split|].
    + discriminate.
    + intros Hall. apply apply_writes_updates_None in Ea as [id [Hin Hl]].
      exfalso. exact (Hall id Hin Hl).
    + intros _. split; [reflexivity | split; reflexivity].
Qed.

Lemma resetWordsProgress_all_or_nothing_witness :
  st_store (snd (resetWordsProgress "u1" "wb1" ["w1"; "nope"] warmSt)) = st_store warmSt /\
  fst (resetWordsProgress "u1" "wb1" ["w1"; "nope"] warmSt) = Err NotFound.
Proof.
  destruct (resetWordsProgress_all_or_nothing "u1" "wb1" ["w1"; "nope"] warmSt
              (fst (resetWordsProgress "u1" "wb1" ["w1"; "nope"] warmSt))
              (snd (resetWordsProgress "u1" "wb1" ["w1"; "nope"] warmSt)) eq_refl)
    as [_ H2].
  destruct (H2 ltac:(discriminate)) as [Hr [Hst _]]. split; [exact Hst | exact Hr].
Defined.

(** ** Creating a word *)

Lemma getWords_result (u wb : string) (s : St) :
  fst (getWordsByWordbookId u wb s) =
  Ok (match wordCache s (makeCacheKey u wb) with
      | Some ws => ws
      | None => map toWord (s_words (st_store s) u wb)
      end).
Proof. unfold getWordsByWordbookId, getWordDocs. run_m. destruct (wordCache s _); reflexivity. Qed.

(** [createWord] appends the new document, with the first clock reading as
    [createdAt] and no [id] field, under the generated id; it returns the word
    stamped with the second reading; a warm cache entry gets the returned word
    appended, a cold one stays cold, and no other cache entry changes. *)
Theorem createWord_effects (u wb : string) (inp : WordInput) (s s' : St) (w : Word) :
  createWord u wb inp s = (Ok w, s') ->
  w_id w = st_autoId s (st_idn s) /\
  w_fields w = mkWordFields inp wb (st_clock s (S (st_tick s))) /\
  s_words (st_store s') u wb =
    s_words (st_store s) u wb ++
    [(w_id w, {| d_id := None; d_fields := mkWordFields inp wb (st_clock s (st_tick s)) |})] /\
  wordCache s' (makeCacheKey u wb) =
    match wordCache s (makeCacheKey u wb) with
    | Some ws => Some (ws ++ [w])
    | None => None
    end /\
  (forall k, k <> makeCacheKey u wb -> wordCache s' k = wordCache s k).
Proof.
  intros H. unfold createWord, addWordDoc, updateWordCache in H. run_m.
  cbv [set_store set_log set_idn set_tick set_wordCache] in H. simpl in H.
  destruct (lookup _ _) eqn:El; [discriminate|].
  match type of H with context [match wordCache ?x ?k with _ => _ end] =>
    revert H; destruct (wordCache x k) as [ws|] eqn:Ec; intros H end;
    inversion H; subst; clear H; simpl in Ec |- *; rewrite ?Ec, ?String.eqb_refl; simpl.
  - split; [reflexivity|]. split; [reflexivity|]. split; [reflexivity|].
    split; [apply cache_put_same|].
    intros k Hk. apply cache_put_other. exact Hk.
  - repeat split.
Qed.

Lemma createWord_effects_witness :
  exists w, fst (createWord "u1" "wb1" (sampleInput "xie xie") warmSt) = Ok w /\
            wordCache (snd (createWord "u1" "wb1" (sampleInput "xie xie") warmSt))
              (makeCacheKey "u1" "wb1") = Some [sampleWord; w].
Proof.
  eexists. split; [reflexivity|].
  destruct (createWord_effects "u1" "wb1" (sampleInput "xie xie") warmSt _ _ eq_refl)
    as [_ [_ [_ [Hc _]]]].
  exact Hc.
Defined.

(** [createWord] fails exactly when the generated id is already taken in the
    wordbook, with [AlreadyExists], and then changes neither the store nor the
    word cache. *)
Theorem createWord_fails_only_on_taken_id (u wb : string) (inp : WordInput) (s s' : St) r :
  createWord u wb inp s = (r, s') ->
  ((exists e, r = Err e) <-> lookup (st_autoId s (st_idn s)) (s_words (st_store s) u wb) <> None) /\
  (forall e, r = Err e -> e = AlreadyExists /\ st_store s' = st_store s /\ wordCache s' = wordCache s).
Proof.
  intros H. unfold createWord, addWordDoc, updateWordCache in H. run_m.
  cbv [set_store set_log set_idn set_tick set_wordCache] in H. simpl in H.
  destruct (lookup _ _) eqn:El.
  - inversion H; subst. split.
    + split; [intros _; discriminate | intros _; eexists; reflexivity].
    + intros e He. inversion He; subst. repeat split.
  - match type of H with context [match wordCache ?x ?k with _ => _ end] =>
      revert H; destruct (wordCache x k); intros H end; inversion H; subst;
      (split; [split; [intros [e He]; discriminate | intros Hn; exfalso; apply Hn; reflexivity]
              | intros e He; discriminate]).
Qed.

Lemma createWord_fails_only_on_taken_id_witness :
  let s := {| st_store := st_store warmSt; wordCache := wordCache warmSt;
              posTagCache := posTagCache warmSt; st_clock := st_clock warmSt;
              st_tick := st_tick warmSt; st_autoId := fun _ => "w1";
              st_idn := st_idn warmSt; st_log := st_log warmSt |} in
  fst (createWord "u1" "wb1" (sampleInput "xie xie") s) = Err AlreadyExists /\
  st_store (snd (createWord "u1" "wb1" (sampleInput "xie xie") s)) = st_store s.
Proof.
  intros s.
  destruct (createWord_fails_only_on_taken_id "u1" "wb1" (sampleInput "xie xie") s _ _ eq_refl)
    as [[_ Hiff] Hdone].
  destruct (Hiff ltac:(discriminate)) as [e He].
  destruct (Hdone e He) as [Ee [Hst _]]. subst e. split; [exact He | exact Hst].
Defined.

(** Reading the words back after [createWord]: with a warm cache entry the
    listing holds the returned word; with a cold one it holds the stored copy,
    which has the same id and fields but the first clock reading as
    [createdAt]. *)
Theorem createWord_then_getWords (u wb : string) (inp : WordInput) (s s' : St) (w : Word) :
  createWord u wb inp s = (Ok w, s') ->
  exists l, fst (getWordsByWordbookId u wb s') = Ok l /\
    (wordCache s (makeCacheKey u wb) <> None -> In w l) /\
    (wordCache s (makeCacheKey u wb) = None ->
       In {| w_id := w_id w; w_fields := mkWordFields inp wb (st_clock s (st_tick s)) |} l).
Proof.
  intros H. destruct (createWord_effects u wb inp s s' w H) as [_ [_ [Hst [Hc _]]]].
  eexists. split; [apply getWords_result|]. rewrite Hc.
  destruct (wordCache s (makeCacheKey u wb)) as [ws|].
  - split; [intros _; apply in_or_app; right; left; reflexivity | intros E; discriminate].
  - split; [intros E; exfalso; apply E; reflexivity|]. intros _. rewrite Hst, map_app.
    apply in_or_app. right. left. reflexivity.
Qed.

Lemma createWord_then_getWords_witness :
  exists l, fst (getWordsByWordbookId "u1" "wb1"
                   (snd (createWord "u1" "wb1" (sampleInput "xie xie") (initSt sampleStore)))) = Ok l /\
    In {| w_id := "A"; w_fields := mkWordFields (sampleInput "xie xie") "wb1" 10%Z |} l.
Proof.
  destruct (createWord_then_getWords "u1" "wb1" (sampleInput "xie xie") (initSt sampleStore)
              _ {| w_id := "A"; w_fields := mkWordFields (sampleInput "xie xie") "wb1" 11%Z |}
              eq_refl) as [l [Hl [_ Hcold]]].
  exists l. split; [exact Hl|]. exact (Hcold eq_refl).
Defined.

(** ** Importing words *)

(** The stored form of an imported word: [batch.set(docRef, word)]. *)
Definition importedDoc (w : Word) : string * WordData :=
  (w_id w, {| d_id := Some (w_id w); d_fields := w_fields w |}).

Lemma apply_writes_sets_fresh (ws : list Word) (c : Coll WordData) :
  NoDup (map w_id ws) -> (forall w, In w ws -> lookup (w_id w) c = None) ->
  apply_writes (map setWordWrite ws) c = Some (c ++ map importedDoc ws).
Proof.
  revert c. induction ws as [|w ws IH]; intros c Hnd Hfr; simpl; [rewrite app_nil_r; reflexivity|].
  unfold coll_set. rewrite (Hfr w (or_introl eq_refl)).
  inversion Hnd as [|? ? Hnotin Hnd']; subst.
  rewrite IH; [rewrite <- app_assoc; reflexivity | exact Hnd' |].
  intros w' Hw'. apply lookup_None_keys. rewrite map_app. simpl. intros Hin.
  apply in_app_or in Hin as [Hin|[E|[]]].
  - apply (proj1 (lookup_None_keys _ _) (Hfr w' (or_intror Hw'))). exact Hin.
  - apply Hnotin. rewrite E. apply in_map. exact Hw'.
Qed.

Lemma map_toWord_imported (ws : list Word) : map toWord (map importedDoc ws) = ws.
Proof. induction ws as [|[i f] ws IH]; simpl; [reflexivity | rewrite IH; reflexivity]. Qed.

(** [bulkImportWords] with fresh, distinct generated ids: the stored listing
    gains exactly the returned words; a warm cache entry gets them appended
    (so a coherent entry stays coherent), while a cold entry is set to the
    returned words alone, leaving out the words stored before. *)
Theorem bulkImportWords_cache_vs_store (u wb : string) (data : list WordInput) (s : St) :
  IdsMatchKeys (s_words (st_store s) u wb) ->
  NoDup (map (st_autoId s) (seq (st_idn s) (length data))) ->
  (forall i, In i (seq (st_idn s) (length data)) ->
     lookup (st_autoId s i) (s_words (st_store s) u wb) = None) ->
  exists ws s', bulkImportWords u wb data s = (Ok ws, s') /\
    map toWord (s_words (st_store s') u wb) = map toWord (s_words (st_store s) u wb) ++ ws /\
    IdsMatchKeys (s_words (st_store s') u wb) /\
    wordCache s' (makeCacheKey u wb) =
      Some (match wordCache s (makeCacheKey u wb) with Some l => l ++ ws | None => ws end) /\
    (WordCacheCoherent u wb s -> wordCache s (makeCacheKey u wb) <> None ->
     WordCacheCoherent u wb s').
Proof.
  intros Hc Hnd Hfr. unfold bulkImportWords.
  rewrite (bind_ok _ _ _ _ _ (now_eq s)). cbv beta.
  set (t := st_clock s (st_tick s)).
  destruct (stageImports_spec wb t data (set_tick (S (st_tick s)) s)) as [ws [E [Hids _]]].
  rewrite (bind_ok _ _ _ _ _ E).
  set (s2 := set_idn _ _).
  assert (Happ : apply_writes (map setWordWrite ws) (s_words (st_store s2) u wb) =
                 Some (s_words (st_store s) u wb ++ map importedDoc ws)).
  { apply apply_writes_sets_fresh.
    - rewrite Hids. exact Hnd.
    - intros w Hw. assert (Hi : In (w_id w) (map w_id ws)) by (apply in_map; exact Hw).
      rewrite Hids in Hi. apply in_map_iff in Hi as [i [Ei Hi]]. rewrite <- Ei.
      exact (Hfr i Hi). }
  rewrite (bind_ok _ _ _ _ _ (commit_eq _ _ _ _ _ Happ)). cbv zeta.
  assert (Hst : map toWord (s_words (upd_words u wb (fun _ => s_words (st_store s) u wb ++
                  map importedDoc ws) (st_store s2)) u wb) =
                map toWord (s_words (st_store s) u wb) ++ ws).
  { rewrite upd_words_same, map_app, map_toWord_imported. reflexivity. }
  assert (Hc' : IdsMatchKeys (s_words (upd_words u wb (fun _ => s_words (st_store s) u wb ++
                  map importedDoc ws) (st_store s2)) u wb)).
  { rewrite upd_words_same. intros k d Hin. apply in_app_or in Hin as [Hin|Hin].
    - exact (Hc k d Hin).
    - apply in_map_iff in Hin as [w [Ew _]]. unfold importedDoc in Ew.
      inversion Ew; subst. right. reflexivity. }
  destruct (wordCache s (makeCacheKey u wb)) as [old|] eqn:Ec;
    (do 2 eexists; split; [unfold bind, get, modify, ret; simpl; rewrite Ec; reflexivity|]);
    (split; [exact Hst|]); (split; [exact Hc'|]);
    (split; [cbn [set_wordCache wordCache]; apply cache_put_same|]).
  - intros [E'|E'] _; [congruence|]. rewrite Ec in E'. injection E' as ->. right.
    cbn [set_wordCache wordCache st_store]. rewrite cache_put_same. f_equal. symmetry. exact Hst.
  - intros _ Hn. exfalso. apply Hn. reflexivity.
Qed.

Lemma bulkImportWords_cache_vs_store_witness :
  exists ws s', bulkImportWords "u1" "wb1" [sampleInput "a"] warmSt = (Ok ws, s') /\
    WordCacheCoherent "u1" "wb1" s'.
Proof.
  destruct (bulkImportWords_cache_vs_store "u1" "wb1" [sampleInput "a"] warmSt)
    as [ws [s' [E [_ [_ [_ Hcoh]]]]]].
  - intros k d [E|[]]. inversion E; subst. left; reflexivity.
  - simpl. constructor; [intros [] | constructor].
  - intros i [<-|[]]. reflexivity.
  - exists ws, s'. split; [exact E|]. apply Hcoh; [right; reflexivity | discriminate].
Defined.

(** ** Part-of-speech tags *)

(** Split [H] on the scrutinee of a [match] it contains. *)
Ltac case_in H :=
  match type of H with
  | context [match ?x with _ => _ end] => revert H; destruct x eqn:?; intros H
  end.

Definition TagCacheCoherent (u : string) (s : St) : Prop :=
  posTagCache s u = None \/ posTagCache s u = Some (map toTag (s_posTags (st_store s) u)).

Definition TagIdsMatchKeys (c : Coll TagData) : Prop :=
  forall k d, In (k, d) c -> td_id d = None \/ td_id d = Some k.

(** [getPartOfSpeechTags] is cache-first: a cold read lists the stored tag
    documents and fills the cache; from then on the same list is returned
    without a store read, whatever the store holds. *)
Theorem getPartOfSpeechTags_cache_first (u : string) (s s1 : St) (ts : list PartOfSpeechTag) :
  getPartOfSpeechTags u s = (Ok ts, s1) ->
  posTagCache s1 u = Some ts /\
  (posTagCache s u = None -> ts = map toTag (s_posTags (st_store s) u)) /\
  (forall x, getPartOfSpeechTags u (set_store x s1) = (Ok ts, set_store x s1)).
Proof.
  intros H. unfold getPartOfSpeechTags, getTagDocs in H. run_m.
  case_in H; inversion H; subst; clear H.
  - split; [assumption|]. split; [intros E; congruence|].
    intros x. unfold getPartOfSpeechTags. run_m. rewrite Heqo. reflexivity.
  - assert (Hc : forall x, posTagCache (set_store x (set_posTagCache
                   (cache_put u (map toTag (s_posTags (st_store s) u)) (posTagCache s))
                   (set_log (st_log s ++ [EvGetDocs (posTagsPath u)]) s))) u =
                 Some (map toTag (s_posTags (st_store s) u)))
      by (intros x; apply cache_put_same).
    split; [apply (Hc (st_store s))|]. split; [reflexivity|].
    intros x. unfold getPartOfSpeechTags at 1. unfold bind at 1, get at 1.
    rewrite Hc. reflexivity.
Qed.

Lemma getPartOfSpeechTags_cache_first_witness :
  getPartOfSpeechTags "u1" (set_store emptyStore (snd (getPartOfSpeechTags "u1" (initSt sampleStore))))
  = (fst (getPartOfSpeechTags "u1" (initSt sampleStore)),
     set_store emptyStore (snd (getPartOfSpeechTags "u1" (initSt sampleStore)))).
Proof.
  exact (proj2 (proj2 (getPartOfSpeechTags_cache_first "u1" (initSt sampleStore) _ _ eq_refl))
           emptyStore).
Defined.

Lemma tag_coherent_after_cache_update (u : string) f (s : St) (c : Coll TagData) r s' :
  (posTagCache s u = None \/ posTagCache s u = Some (map toTag c)) ->
  f (map toTag c) = map toTag (s_posTags (st_store s) u) ->
  updateTagCache u f s = (r, s') ->
  r = Ok tt /\ TagCacheCoherent u s' /\ st_store s' = st_store s.
Proof.
  intros [E|E] Hf H; unfold updateTagCache in H; run_m; rewrite E in H;
    inversion H; subst; split; try reflexivity; split; try reflexivity;
    unfold TagCacheCoherent; simpl.
  - left. exact E.
  - right. rewrite cache_put_same, Hf. reflexivity.
Qed.

Lemma addTagDoc_cases (u : string) (d : TagData) (s : St) :
  addTagDoc u d s =
  match lookup (st_autoId s (st_idn s)) (s_posTags (st_store s) u) with
  | Some _ => (Err AlreadyExists,
               set_log (st_log s ++ [EvAddDoc (posTagsPath u)]) (set_idn (S (st_idn s)) s))
  | None => (Ok (st_autoId s (st_idn s)),
             set_store (upd_posTags u (fun c => c ++ [(st_autoId s (st_idn s), d)]) (st_store s))
               (set_log (st_log s ++ [EvAddDoc (posTagsPath u)]) (set_idn (S (st_idn s)) s)))
  end.
Proof.
  unfold addTagDoc, bind, autoId, emit, get, modify, modify_store, ret, throw.
  change (st_store (set_log (st_log (set_idn (S (st_idn s)) s) ++ [EvAddDoc (posTagsPath u)])
                     (set_idn (S (st_idn s)) s))) with (st_store s).
  destruct (lookup _ _); reflexivity.
Qed.

(** [createPartOfSpeechTag] stores the tag under the generated id with the
    caller as [userId]; the next [getPartOfSpeechTags] lists the returned tag,
    whether the tag cache was warm or cold, and a coherent tag cache stays
    coherent. *)
Theorem createPartOfSpeechTag_then_list (u : string) (inp : TagInput) (s s' : St)
  (tag : PartOfSpeechTag) :
  createPartOfSpeechTag u inp s = (Ok tag, s') ->
  t_id tag = st_autoId s (st_idn s) /\ tag_userId (t_fields tag) = u /\
  (exists ts, fst (getPartOfSpeechTags u s') = Ok ts /\ In tag ts) /\
  (TagCacheCoherent u s -> TagCacheCoherent u s').
Proof.
  intros H. unfold createPartOfSpeechTag, bind at 1 in H. rewrite addTagDoc_cases in H.
  destruct (lookup _ _) as [d|] eqn:El; [discriminate|]. cbv beta iota in H.
  set (id := st_autoId s (st_idn s)) in H.
  set (fields := {| tag_name := ti_name inp; color := ti_color inp; tag_userId := u |}) in H.
  set (s3 := set_store _ _) in H.
  assert (Hf : forall c, map toTag c ++ [{| t_id := id; t_fields := fields |}] =
                         map toTag (c ++ [(id, {| td_id := None; td_fields := fields |})]))
    by (intros c; rewrite map_app; reflexivity).
  assert (Hs3 : s_posTags (st_store s3) u =
                s_posTags (st_store s) u ++ [(id, {| td_id := None; td_fields := fields |})]).
  { unfold s3. cbn [st_store set_store upd_posTags s_posTags]. rewrite String.eqb_refl.
    reflexivity. }
  unfold bind at 1 in H.
  destruct (updateTagCache u (fun ts => ts ++ [{| t_id := id; t_fields := fields |}]) s3)
    as [r s4] eqn:Eu.
  unfold updateTagCache in Eu. run_m.
  revert Eu; destruct (posTagCache s u) as [l|] eqn:Ec; intros Eu; injection Eu as <- <-;
    cbv iota in H; injection H as <- <-;
    (split; [reflexivity|]); (split; [reflexivity|]).
  - split.
    + eexists. split; [unfold getPartOfSpeechTags; run_m; rewrite cache_put_same; reflexivity|].
      apply in_or_app. right. left. reflexivity.
    + intros [E|E]; [congruence|]. right. unfold TagCacheCoherent in E |- *.
      simpl. rewrite cache_put_same, Hs3, <- Hf.
      change (posTagCache s3 u) with (posTagCache s u) in *.
      rewrite Ec in E. injection E as ->. reflexivity.
  - split.
    + eexists. split.
      * unfold getPartOfSpeechTags, getTagDocs. run_m.
        change (posTagCache s3 u) with (posTagCache s u). rewrite Ec. reflexivity.
      * simpl. rewrite Hs3, <- Hf. apply in_or_app. right. left. reflexivity.
    + intros _. left. exact Ec.
Qed.

Lemma createPartOfSpeechTag_then_list_witness :
  exists tag ts, fst (createPartOfSpeechTag "u1" {| ti_name := "adj"; ti_color := "green" |}
                        (initSt sampleStore)) = Ok tag /\
    fst (getPartOfSpeechTags "u1" (snd (createPartOfSpeechTag "u1"
           {| ti_name := "adj"; ti_color := "green" |} (initSt sampleStore)))) = Ok ts /\
    In tag ts.
Proof.
  destruct (createPartOfSpeechTag_then_list "u1" {| ti_name := "adj"; ti_color := "green" |}
              (initSt sampleStore) _ _ eq_refl) as [_ [_ [[ts [Hts Hin]] _]]].
  eexists. exists ts. split; [reflexivity|]. split; [exact Hts | exact Hin].
Defined.

Lemma toTag_id (k : string) (d : TagData) :
  td_id d = None \/ td_id d = Some k -> t_id (toTag (k, d)) = k.
Proof. intros [H|H]; unfold toTag, ov; simpl; rewrite H; reflexivity. Qed.

Lemma TagIdsMatchKeys_update id p c :
  tp_id p = None -> TagIdsMatchKeys c -> TagIdsMatchKeys (coll_update id (patch_tagdata p) c).
Proof.
  intros Hp Hc k d Hin. apply In_coll_update in Hin as [d0 [Hin0 Hd]].
  destruct (String.eqb k id); subst; [simpl; rewrite Hp|]; exact (Hc k d0 Hin0).
Qed.

Lemma TagIdsMatchKeys_delete id c :
  TagIdsMatchKeys c -> TagIdsMatchKeys (coll_delete id c).
Proof. intros H k d Hin. apply filter_In in Hin as [Hin _]. exact (H k d Hin). Qed.

Lemma map_toTag_update (id : string) (p : TagPatch) (c : Coll TagData) :
  TagIdsMatchKeys c -> tp_id p = None ->
  map toTag (coll_update id (patch_tagdata p) c) =
  map (fun t => if String.eqb (t_id t) id then patch_tag p t else t) (map toTag c).
Proof.
  intros Hc Hp. unfold coll_update. rewrite !map_map. apply map_ext_in.
  intros [k d] Hin. cbn -[toTag]. rewrite (toTag_id k d (Hc k d Hin)).
  destruct (String.eqb k id); [|reflexivity].
  unfold toTag, patch_tag, patch_tagdata. simpl. rewrite Hp. reflexivity.
Qed.

Lemma map_toTag_delete (id : string) (c : Coll TagData) :
  TagIdsMatchKeys c ->
  map toTag (coll_delete id c) = filter (fun t => negb (String.eqb (t_id t) id)) (map toTag c).
Proof.
  induction c as [|[k d] c IH]; intros Hc; [reflexivity|].
  unfold coll_delete in *. cbn -[toTag]. rewrite (toTag_id k d (Hc k d (or_introl eq_refl))).
  assert (Ht : TagIdsMatchKeys c) by (intros k' d' Hin; apply Hc; right; exact Hin).
  destruct (String.eqb k id); cbn [negb map]; rewrite (IH Ht); reflexivity.
Qed.

Lemma updateTagDoc_cases u id p s :
  updateTagDoc u id p s =
  match lookup id (s_posTags (st_store s) u) with
  | None => (Err NotFound, set_log (st_log s ++ [EvUpdateDoc (posTagPath u id)]) s)
  | Some _ => (Ok tt, set_store (upd_posTags u (coll_update id (patch_tagdata p)) (st_store s))
                        (set_log (st_log s ++ [EvUpdateDoc (posTagPath u id)]) s))
  end.
Proof. unfold updateTagDoc. run_m. destruct (lookup id _); reflexivity. Qed.

(** [updatePartOfSpeechTag] with a patch that sets no [id] field keeps the
    tag cache in step with the stored tags; on a tag id with no document it
    fails with [NotFound] and changes neither the store nor the tag cache. *)
Theorem updatePartOfSpeechTag_keeps_tag_cache_coherent (u id : string) (p : TagPatch)
  (s s' : St) r :
  TagIdsMatchKeys (s_posTags (st_store s) u) -> tp_id p = None ->
  TagCacheCoherent u s ->
  updatePartOfSpeechTag u id p s = (r, s') ->
  TagCacheCoherent u s' /\ TagIdsMatchKeys (s_posTags (st_store s') u) /\
  (lookup id (s_posTags (st_store s) u) = None ->
   r = Err NotFound /\ st_store s' = st_store s /\ posTagCache s' = posTagCache s).
Proof.
  intros Hk Hp Hc H. unfold updatePartOfSpeechTag, bind at 1 in H.
  rewrite updateTagDoc_cases in H.
  destruct (lookup id _) eqn:El.
  - cbv iota in H.
    set (s2 := set_store _ _) in H.
    assert (Hs2 : s_posTags (st_store s2) u =
                  coll_update id (patch_tagdata p) (s_posTags (st_store s) u)).
    { unfold s2. cbn [st_store set_store upd_posTags s_posTags].
      rewrite String.eqb_refl. reflexivity. }
    apply tag_coherent_after_cache_update with (c := s_posTags (st_store s) u) in H
      as [_ [Hcoh Hst]].
    + split; [exact Hcoh|]. split; [rewrite Hst, Hs2; apply TagIdsMatchKeys_update; assumption|].
      intros; discriminate.
    + exact Hc.
    + rewrite Hs2, map_toTag_update by assumption. reflexivity.
  - cbv iota in H. cbv [throw] in H. injection H as <- <-.
    split; [exact Hc|]. split; [exact Hk|]. intros _. repeat split.
Qed.

(** [deletePartOfSpeechTag], when it succeeds, keeps the tag cache in step
    with the stored tags and never lets a tag document carry a foreign [id]. *)
Theorem deletePartOfSpeechTag_keeps_tag_cache_coherent (u tag : string) (s s' : St) :
  TagIdsMatchKeys (s_posTags (st_store s) u) ->
  TagCacheCoherent u s ->
  deletePartOfSpeechTag u tag s = (Ok tt, s') ->
  TagCacheCoherent u s' /\ TagIdsMatchKeys (s_posTags (st_store s') u).
Proof.
  intros Hk Hc H. apply deletePartOfSpeechTag_ok in H as [_ [_ [Ht Hcache]]].
  rewrite Ht. split; [|apply TagIdsMatchKeys_delete; exact Hk].
  unfold TagCacheCoherent in *. rewrite Hcache, Ht.
  destruct Hc as [E|E]; rewrite E; [left; reflexivity|].
  right. rewrite map_toTag_delete by exact Hk. reflexivity.
Qed.

Lemma updatePartOfSpeechTag_keeps_tag_cache_coherent_witness :
  let s := snd (getPartOfSpeechTags "u1" (initSt sampleStore)) in
  let p := {| tp_id := None; tp_name := Some "noun!"; tp_color := None; tp_userId := None |} in
  TagCacheCoherent "u1" (snd (updatePartOfSpeechTag "u1" "t1" p s)).
Proof.
  intros s p.
  refine (proj1 (updatePartOfSpeechTag_keeps_tag_cache_coherent "u1" "t1" p s _ _ _ _ _ eq_refl)).
  - intros k d [E|[]]. inversion E; subst. left; reflexivity.
  - reflexivity.
  - right. reflexivity.
Defined.

Lemma deletePartOfSpeechTag_keeps_tag_cache_coherent_witness :
  let s := snd (getPartOfSpeechTags "u1" (initSt sampleStore)) in
  TagCacheCoherent "u1" (snd (deletePartOfSpeechTag "u1" "t1" s)).
Proof.
  intros s.
  refine (proj1 (deletePartOfSpeechTag_keeps_tag_cache_coherent "u1" "t1" s _ _ _ eq_refl)).
  - intros k d [E|[]]. inversion E; subst. left; reflexivity.
  - right. reflexivity.
Defined.

(** ** Wordbooks *)

Lemma iter_deleteWordDoc_full (u wb : string) (xs : Coll WordData) (s : St) :
  exists s', iter (fun e => deleteWordDoc u wb (fst e)) xs s = (Ok tt, s') /\
    (forall u' wb', s_words (st_store s') u' wb' =
       if String.eqb u' u && String.eqb wb' wb
       then filter (fun e => negb (existsb (fun x => String.eqb (fst e) (fst x)) xs))
                   (s_words (st_store s) u wb)
       else s_words (st_store s) u' wb') /\
    s_wordbooks (st_store s') = s_wordbooks (st_store s) /\
    s_posTags (st_store s') = s_posTags (st_store s) /\
    wordCache s' = wordCache s /\ posTagCache s' = posTagCache s.
Proof.
  revert s. induction xs as [|x xs IH]; intros s; simpl.
  - exists s. split; [reflexivity|]. split; [|repeat split].
    intros u' wb'. destruct (String.eqb_spec u' u); destruct (String.eqb_spec wb' wb);
      subst; simpl; try reflexivity. symmetry. apply filter_true.
  - unfold bind at 1. rewrite deleteWordDoc_eq.
    destruct (IH (set_store (upd_words u wb (coll_delete (fst x)) (st_store s))
                   (set_log (st_log s ++ [EvDeleteDoc (wordPath u wb (fst x))]) s)))
      as [s' [Hrun [Hw [Hb [Ht [Hc Hp]]]]]].
    exists s'. rewrite Hrun. split; [reflexivity|].
    rewrite Hb, Ht, Hc, Hp. split; [|repeat split].
    intros u' wb'. rewrite Hw. simpl. rewrite !String.eqb_refl. simpl.
    destruct (String.eqb u' u && String.eqb wb' wb); [|reflexivity].
    unfold coll_delete. rewrite filter_twice. apply filter_ext. intros e.
    rewrite String.eqb_sym. destruct (String.eqb (fst x) (fst e)); reflexivity.
Qed.

(** [deleteWordbook] never fails. It removes the wordbook document and every
    word under it, and touches nothing else: no other user's or wordbook's
    documents, no tag, and neither cache. *)
Theorem deleteWordbook_effects (u wb : string) (s : St) :
  exists s', deleteWordbook u wb s = (Ok tt, s') /\
    (forall u', s_wordbooks (st_store s') u' =
       if String.eqb u' u then coll_delete wb (s_wordbooks (st_store s) u)
       else s_wordbooks (st_store s) u') /\
    (forall u' wb', s_words (st_store s') u' wb' =
       if String.eqb u' u && String.eqb wb' wb then [] else s_words (st_store s) u' wb') /\
    s_posTags (st_store s') = s_posTags (st_store s) /\
    wordCache s' = wordCache s /\ posTagCache s' = posTagCache s.
Proof.
  unfold deleteWordbook, getWordDocs. run_m.
  set (s1 := set_log _ s).
  destruct (iter_deleteWordDoc_full u wb (s_words (st_store s) u wb) s1)
    as [s2 [Hrun [Hw [Hb [Ht [Hc Hp]]]]]].
  rewrite Hrun. unfold deleteWordbookDoc. run_m.
  eexists. split; [reflexivity|]. simpl.
  split; [|split; [|repeat split]].
  - intros u'. rewrite Hb. destruct (String.eqb_spec u' u); subst; reflexivity.
  - intros u' wb'. rewrite Hw. destruct (String.eqb u' u && String.eqb wb' wb);
      [apply filter_all_keys_nil | reflexivity].
  - exact Ht.
  - exact Hc.
  - exact Hp.
Qed.

Lemma deleteWordbook_effects_witness :
  fst (deleteWordbook "u1" "wb1" warmSt) = Ok tt.
Proof.
  destruct (deleteWordbook_effects "u1" "wb1" warmSt) as [s' [E _]]. rewrite E. reflexivity.
Defined.

Lemma iter_deleteWordbook (u : string) (ids : list string) (s : St) :
  exists s', iter (fun wb => deleteWordbook u wb) ids s = (Ok tt, s') /\
    (forall u', s_wordbooks (st_store s') u' =
       if String.eqb u' u
       then filter (fun e => negb (existsb (String.eqb (fst e)) ids)) (s_wordbooks (st_store s) u)
       else s_wordbooks (st_store s) u') /\
    (forall u' wb', s_words (st_store s') u' wb' =
       if String.eqb u' u && existsb (String.eqb wb') ids then []
       else s_words (st_store s) u' wb') /\
    wordCache s' = wordCache s /\ posTagCache s' = posTagCache s.
Proof.
  revert s. induction ids as [|i ids IH]; intros s; simpl.
  - exists s. split; [reflexivity|]. split; [|split; [|split; reflexivity]].
    + intros u'. destruct (String.eqb_spec u' u); [subst; symmetry; apply filter_true|reflexivity].
    + intros u' wb'. rewrite andb_false_r. reflexivity.
  - unfold bind at 1.
    destruct (deleteWordbook_effects u i s) as [s1 [E1 [Hb1 [Hw1 [_ [Hc1 Hp1]]]]]].
    rewrite E1.
    destruct (IH s1) as [s2 [E2 [Hb2 [Hw2 [Hc2 Hp2]]]]].
    exists s2. rewrite E2. split; [reflexivity|].
    rewrite Hc2, Hc1, Hp2, Hp1. split; [|split; [|split; reflexivity]].
    + intros u'. rewrite Hb2, !Hb1. destruct (String.eqb u' u) eqn:Eu; [|reflexivity].
      rewrite String.eqb_refl. unfold coll_delete. rewrite filter_twice.
      apply filter_ext. intros e. rewrite String.eqb_sym.
      destruct (String.eqb i (fst e)); reflexivity.
    + intros u' wb'. rewrite Hw2, !Hw1.
      destruct (String.eqb u' u) eqn:Eu; simpl; [|reflexivity].
      destruct (String.eqb wb' i), (existsb (String.eqb wb') ids); reflexivity.
Qed.

Lemma NoDup_keys_eq {D} (c : Coll D) e e' :
  NoDup (map fst c) -> In e c -> In e' c -> fst e = fst e' -> e = e'.
Proof.
  induction c as [|x c IH]; simpl; [contradiction|]. intros Hnd He He' Hk.
  inversion Hnd as [|? ? Hx Hnd']; subst.
  destruct He as [<-|He]; destruct He' as [<-|He']; try reflexivity.
  - exfalso. apply Hx. rewrite Hk. apply in_map. exact He'.
  - exfalso. apply Hx. rewrite <- Hk. apply in_map. exact He.
  - apply IH; assumption.
Qed.

(** [clearTrashedWordbooks] never fails. Afterwards the trashed listing is
    empty, the words of every trashed wordbook are gone, the user keeps
    exactly the wordbooks whose id no trashed wordbook shares (with unique
    ids: the untrashed ones), and the word cache is left as it was, entries
    of the deleted wordbooks included. *)
Theorem clearTrashedWordbooks_effects (u : string) (s : St) :
  let c := s_wordbooks (st_store s) u in
  let tids := map fst (filter (fun e => truthy (trashed (snd e))) c) in
  exists s', clearTrashedWordbooks u s = (Ok tt, s') /\
    s_wordbooks (st_store s') u = filter (fun e => negb (existsb (String.eqb (fst e)) tids)) c /\
    (NoDup (map fst c) ->
     s_wordbooks (st_store s') u = filter (fun e => negb (truthy (trashed (snd e)))) c) /\
    (forall e, In e c -> truthy (trashed (snd e)) = true -> s_words (st_store s') u (fst e) = []) /\
    fst (getTrashedWordbooksByUserId u s') = Ok [] /\
    wordCache s' = wordCache s.
Proof.
  intros c tids. unfold clearTrashedWordbooks, getTrashedWordbooksByUserId, getWordbookDocs.
  unfold bind at 1. run_m. fold c.
  set (s1 := set_log _ s).
  assert (Hiter : forall (l : list (string * WordbookData)) s0,
    iter (fun wb => deleteWordbook u (wb_id wb)) (map toWordbook l) s0 =
    iter (fun wb => deleteWordbook u wb) (map fst l) s0).
  { induction l as [|x l IH]; intros s0; [reflexivity|]. simpl. unfold bind.
    destruct (deleteWordbook u (fst x) s0) as [[a|e] s3]; [apply IH|reflexivity]. }
  rewrite Hiter.
  destruct (iter_deleteWordbook u tids s1) as [s2 [E [Hb [Hw [Hc _]]]]].
  fold tids. rewrite E. exists s2. split; [reflexivity|].
  assert (Hb' : s_wordbooks (st_store s2) u =
                filter (fun e => negb (existsb (String.eqb (fst e)) tids)) c)
    by (rewrite Hb, String.eqb_refl; reflexivity).
  assert (Htid : forall e, In e c -> truthy (trashed (snd e)) = true ->
                           existsb (String.eqb (fst e)) tids = true).
  { intros e He Ht. apply existsb_exists. exists (fst e). split; [|apply String.eqb_refl].
    apply in_map. apply filter_In. split; assumption. }
  split; [exact Hb'|]. split; [|split; [|split]].
  - intros Hnd. rewrite Hb'. apply filter_ext_in. intros e He.
    destruct (truthy (trashed (snd e))) eqn:Ht; [rewrite (Htid e He Ht); reflexivity|].
    destruct (existsb (String.eqb (fst e)) tids) eqn:Ex; [|reflexivity].
    apply existsb_exists in Ex as [k [Hk Hek]]. apply String.eqb_eq in Hek; subst k.
    apply in_map_iff in Hk as [e' [Hfe' He']]. apply filter_In in He' as [He' Ht'].
    rewrite (NoDup_keys_eq c e e' Hnd He He' (eq_sym Hfe')) in Ht. congruence.
  - intros e He Ht. rewrite Hw, String.eqb_refl, (Htid e He Ht). reflexivity.
  - unfold getTrashedWordbooksByUserId, getWordbookDocs. run_m. rewrite Hb'.
    rewrite filter_twice.
    rewrite (filter_ext_in _ (fun _ => false)); [rewrite filter_false; reflexivity|].
    intros e He. destruct (truthy (trashed (snd e))) eqn:Ht; [|apply andb_false_r].
    rewrite (Htid e He Ht). reflexivity.
  - rewrite Hc. reflexivity.
Qed.

Lemma clearTrashedWordbooks_effects_witness :
  let s := snd (trashWordbook "u1" "wb1" warmSt) in
  fst (clearTrashedWordbooks "u1" s) = Ok tt /\
  s_wordbooks (st_store (snd (clearTrashedWordbooks "u1" s))) "u1" = [].
Proof.
  intros s. destruct (clearTrashedWordbooks_effects "u1" s) as [s' [E [_ [Hnd _]]]].
  rewrite E. split; [reflexivity|]. simpl. rewrite Hnd; [reflexivity|].
  repeat constructor. intros [].
Defined.

Lemma updateWordbookDoc_cases u wb p s :
  updateWordbookDoc u wb p s =
  match lookup wb (s_wordbooks (st_store s) u) with
  | None => (Err NotFound, set_log (st_log s ++ [EvUpdateDoc (wordbookPath u wb)]) s)
  | Some _ => (Ok tt, set_store (upd_wordbooks u (coll_update wb (patch_wordbook p)) (st_store s))
                        (set_log (st_log s ++ [EvUpdateDoc (wordbookPath u wb)]) s))
  end.
Proof. unfold updateWordbookDoc. run_m. destruct (lookup wb _); reflexivity. Qed.

(** [createWordbook] fails only when the generated id is already taken, and
    then stores nothing. On success the new document is appended to the
    user's collection, and its id is listed by [getWordbooksByUserId] and
    not by [getTrashedWordbooksByUserId]. *)
Theorem createWordbook_then_listed (u name : string) (s s' : St) r :
  createWordbook u name s = (r, s') ->
  (r = Err AlreadyExists /\ st_store s' = st_store s /\
     lookup (st_autoId s (st_idn s)) (s_wordbooks (st_store s) u) <> None) \/
  (exists wb, r = Ok wb /\ wb_id wb = st_autoId s (st_idn s) /\
     s_wordbooks (st_store s') u =
       s_wordbooks (st_store s) u ++
       [(wb_id wb, {| wb_name := name; wb_userId := u; wb_createdAt := st_clock s (st_tick s);
                      trashed := Some false; trashedAt := Some None |})] /\
     (exists l1 l2, fst (getWordbooksByUserId u s') = Ok l1 /\
        fst (getTrashedWordbooksByUserId u s') = Ok l2 /\
        In (wb_id wb) (map wb_id l1) /\ ~ In (wb_id wb) (map wb_id l2))).
Proof.
  unfold createWordbook, addWordbookDoc. run_m.
  destruct (lookup _ _) eqn:E; intros H; inversion H; subst; clear H.
  - left. split; [reflexivity|]. split; [reflexivity|]. congruence.
  - right. eexists. split; [reflexivity|]. split; [reflexivity|]. simpl.
    rewrite String.eqb_refl. split; [reflexivity|].
    unfold getWordbooksByUserId, getTrashedWordbooksByUserId, getWordbookDocs. run_m.
    rewrite ?String.eqb_refl. do 2 eexists. split; [reflexivity|]. split; [reflexivity|].
    rewrite !map_map, !filter_app. simpl. rewrite !map_app. simpl. split.
    + apply in_or_app. right. left. reflexivity.
    + rewrite app_nil_r. intros Hin. apply in_map_iff in Hin as [e [He Hin]].
      apply filter_In in Hin as [Hin _]. simpl in He. subst.
      apply lookup_None_keys in E. apply E. rewrite <- He. apply in_map. exact Hin.
Qed.

Lemma createWordbook_then_listed_witness :
  exists wb, fst (createWordbook "u1" "HSK 2" (initSt sampleStore)) = Ok wb /\
    wb_id wb = "A".
Proof.
  destruct (createWordbook_then_listed "u1" "HSK 2" (initSt sampleStore) _ _ eq_refl)
    as [[E _]|[wb [E [Hid _]]]]; [discriminate|].
  exists wb. split; [exact E|exact Hid].
Defined.

(** [trashWordbook] and [updateWordbookName] on an id with no document fail
    with [NotFound] and leave the store and both caches as they were. *)
Theorem wordbook_updates_missing_not_found (u wb newName : string) (s : St) :
  lookup wb (s_wordbooks (st_store s) u) = None ->
  fst (trashWordbook u wb s) = Err NotFound /\
  st_store (snd (trashWordbook u wb s)) = st_store s /\
  wordCache (snd (trashWordbook u wb s)) = wordCache s /\
  fst (updateWordbookName u wb newName s) = Err NotFound /\
  st_store (snd (updateWordbookName u wb newName s)) = st_store s /\
  wordCache (snd (updateWordbookName u wb newName s)) = wordCache s.
Proof.
  intros E. unfold trashWordbook, updateWordbookName. cbv [bind now].
  rewrite !updateWordbookDoc_cases. simpl. rewrite E. repeat split.
Qed.

Lemma wordbook_updates_missing_not_found_witness :
  fst (trashWordbook "u1" "nope" (initSt sampleStore)) = Err NotFound.
Proof.
  exact (proj1 (wordbook_updates_missing_not_found "u1" "nope" "x" (initSt sampleStore) eq_refl)).
Defined.

(** A successful [updateWordbookName] renames every document with that id,
    keeps the ids of both listings as they were (a rename never trashes or
    restores), and [getWordbook] then reports the new name. *)
Theorem updateWordbookName_renames (u wb newName : string) (s s' : St) :
  updateWordbookName u wb newName s = (Ok tt, s') ->
  (forall d, In (wb, d) (s_wordbooks (st_store s') u) -> wb_name d = newName) /\
  map wb_id (map toWordbook (filter (fun e => negb (truthy (trashed (snd e))))
                                     (s_wordbooks (st_store s') u))) =
  map wb_id (map toWordbook (filter (fun e => negb (truthy (trashed (snd e))))
                                     (s_wordbooks (st_store s) u))) /\
  map wb_id (map toWordbook (filter (fun e => truthy (trashed (snd e)))
                                     (s_wordbooks (st_store s') u))) =
  map wb_id (map toWordbook (filter (fun e => truthy (trashed (snd e)))
                                     (s_wordbooks (st_store s) u))) /\
  exists d, fst (getWordbook u wb s') = Ok (Some {| wb_id := wb; wb_data := d |}) /\
            wb_name d = newName.
Proof.
  unfold updateWordbookName. rewrite updateWordbookDoc_cases.
  destruct (lookup wb (s_wordbooks (st_store s) u)) as [d0|] eqn:E; [|discriminate].
  intros H. injection H as <-. simpl. rewrite String.eqb_refl.
  set (c := s_wordbooks (st_store s) u).
  set (p := {| pw_name := Some newName; pw_trashed := None; pw_trashedAt := None |}).
  assert (Hf : forall g : bool -> bool,
    map wb_id (map toWordbook (filter (fun e => g (truthy (trashed (snd e))))
                                      (coll_update wb (patch_wordbook p) c))) =
    map wb_id (map toWordbook (filter (fun e => g (truthy (trashed (snd e)))) c))).
  { intros g. clearbody c. clear E. induction c as [|[k d] c IH]; [reflexivity|].
    simpl. destruct (String.eqb k wb); simpl;
      destruct (g (truthy (trashed d))); simpl; rewrite IH; reflexivity. }
  split; [|split; [apply (Hf negb)|split; [apply (Hf (fun b => b))|]]].
  - intros d Hin. apply In_coll_update in Hin as [d1 [_ Hd]].
    rewrite String.eqb_refl in Hd. subst d. reflexivity.
  - unfold getWordbook, getWordbookDoc. run_m. rewrite String.eqb_refl.
    assert (Hl : forall c, lookup wb c = Some d0 ->
                 lookup wb (coll_update wb (patch_wordbook p) c) = Some (patch_wordbook p d0)).
    { clear. induction c as [|[k d] c IH]; simpl; [discriminate|].
      destruct (String.eqb_spec wb k) as [->|Hne].
      - rewrite String.eqb_refl. simpl. rewrite String.eqb_refl. intros H; inversion H; reflexivity.
      - rewrite (proj2 (String.eqb_neq k wb)) by congruence. simpl.
        rewrite (proj2 (String.eqb_neq wb k)) by exact Hne. exact IH. }
    rewrite (Hl (s_wordbooks (st_store s) u) E). eexists. split; reflexivity.
Qed.

Lemma updateWordbookName_renames_witness :
  exists d, fst (getWordbook "u1" "wb1"
                   (snd (updateWordbookName "u1" "wb1" "HSK 1b" (initSt sampleStore))))
            = Ok (Some {| wb_id := "wb1"; wb_data := d |}) /\ wb_name d = "HSK 1b".
Proof.
  exact (proj2 (proj2 (proj2 (updateWordbookName_renames "u1" "wb1" "HSK 1b"
                                 (initSt sampleStore) _ eq_refl)))).
Defined.

(** ** Cache keys *)

Lemma string_append_assoc (a b c : string) :
  String.append a (String.append b c) = String.append (String.append a b) c.
Proof. induction a as [|x a IH]; simpl; [reflexivity|]. rewrite IH. reflexivity. Qed.

(** [makeCacheKey] joins the two ids with ["_"], so distinct (user,
    wordbook) pairs can share a key when an id contains ["_"]; the word
    cache then answers [getWordsByWordbookId] for one pair with the list
    read for the other. *)
Theorem makeCacheKey_collision (u w1 w2 : string) (s : St) :
  makeCacheKey u (w1 ++ "_" ++ w2) = makeCacheKey (u ++ "_" ++ w1) w2 /\
  fst (getWordsByWordbookId u (w1 ++ "_" ++ w2)
         (snd (getWordsByWordbookId (u ++ "_" ++ w1) w2 s))) =
  fst (getWordsByWordbookId (u ++ "_" ++ w1) w2 s).
Proof.
  assert (Hk : makeCacheKey u (w1 ++ "_" ++ w2) = makeCacheKey (u ++ "_" ++ w1) w2).
  { unfold makeCacheKey. rewrite !string_append_assoc. reflexivity. }
  split; [exact Hk|].
  unfold getWordsByWordbookId, getWordDocs.
  cbv [bind ret get modify emit]. rewrite Hk.
  set (k := makeCacheKey (u ++ "_" ++ w1) w2).
  destruct (wordCache s k) eqn:E; simpl.
  - rewrite E. reflexivity.
  - rewrite cache_put_same. reflexivity.
Qed.
